(** * build_muf_rt: ingestion, geodesic distance, interpolation, colour ramp
      and bitmap persistence of the real-time MUF map builder.

    The development follows [scripts/build_muf_rt.py].  Python values that
    come out of [json.loads] are an inductive type; exceptions are an
    explicit error monad; [float] values are modelled by the number they
    denote (rationals where the code only adds, multiplies, divides and
    compares; reals where it calls [sin], [cos], [arcsin], [log], [exp]),
    so rounding, NaN and infinities are outside the model; the file system
    is a finite map from paths to byte strings. *)

From Stdlib Require Import ZArith QArith Qround Reals Psatz List String Ascii Bool.
From stdpp Require Import gmap strings.
Import ListNotations.

Local Open Scope Z_scope.

(** ** Exceptions *)

Inductive exn : Type :=
| TypeError | ValueError | KeyError | AttributeError | OverflowError
| StructError | OSError.

Inductive result (A : Type) : Type :=
| Ok (a : A)
| Raise (e : exn).
Arguments Ok {A} a.
Arguments Raise {A} e.

Definition rbind {A B} (m : result A) (f : A -> result B) : result B :=
  match m with
  | Ok a => f a
  | Raise e => Raise e
  end.

Notation "'let*' x ':=' m 'in' k" := (rbind m (fun x => k))
  (at level 10, x name, m at level 100, k at level 200).

(** [try: ... except: ...] around a computation: any exception selects the
    handler's value. *)
Definition try_except {A} (m : result A) (handler : A) : A :=
  match m with
  | Ok a => a
  | Raise _ => handler
  end.

Definition caught {A} (m : result A) : option A :=
  match m with
  | Ok a => Some a
  | Raise _ => None
  end.

Fixpoint rmapM {A B} (f : A -> result B) (l : list A) : result (list B) :=
  match l with
  | [] => Ok []
  | a :: l' =>
      let* b := f a in
      let* bs := rmapM f l' in
      Ok (b :: bs)
  end.

(** ** Values produced by [json.loads] *)

#[warnings="-register-all"]
Inductive pyval : Type :=
| PNone
| PBool (b : bool)
| PInt (n : Z)
| PFloat (x : Q)
| PStr (s : string)
| PList (l : list pyval)
| PDict (d : list (string * pyval)).

Fixpoint assoc (key : string) (d : list (string * pyval)) : option pyval :=
  match d with
  | [] => None
  | (k', v) :: d' => if String.eqb key k' then Some v else assoc key d'
  end.

(** [d.get(key, default)] *)
Definition dict_get (d : list (string * pyval)) (key : string) (default : pyval) : pyval :=
  match assoc key d with
  | Some v => v
  | None => default
  end.

(** [v[key]] for a string key: a dict looks the key up, [None] and the
    scalars are not subscriptable, a str and a list want integer indices. *)
Definition subscript (v : pyval) (key : string) : result pyval :=
  match v with
  | PDict d =>
      match assoc key d with
      | Some x => Ok x
      | None => Raise KeyError
      end
  | _ => Raise TypeError
  end.

(** ** Comparisons on rationals, as booleans *)

Definition Qltb (x y : Q) : bool := negb (Qle_bool y x).

(** ** Sample ingestion *)

(** The least magnitude of an int that [float] refuses with OverflowError:
    every int below it rounds to a finite binary64 value. *)
Definition float_int_limit : Z := 2 ^ 1024 - 2 ^ 970.

(** A [datetime]: its calendar fields flattened to seconds of wall-clock
    time since 1970-01-01T00:00:00 on its own clock, the microseconds, and
    the UTC offset when the value is timezone-aware. *)
Record datetime : Type := mk_datetime {
  dt_wall : Z;
  dt_micro : Z;
  dt_offset : option Z
}.

(** The first and the last second of the calendar of [datetime],
    0001-01-01T00:00:00 and 9999-12-31T23:59:59, as wall-clock seconds. *)
Definition MIN_WALL : Z := -62135596800.
Definition MAX_WALL : Z := 253402300799.

Definition in_calendar (s : Z) : bool := (MIN_WALL <=? s) && (s <=? MAX_WALL).

Section Ingestion.

(** Library functions of the Python runtime, taken as parameters:
    [float] on a str ([None] where it raises ValueError) and
    [datetime.fromisoformat] ([None] where it raises). *)
Variable float_of_str : string -> option Q.

Variable fromisoformat : string -> option datetime.

(** The UTC offset (seconds east of Greenwich) of the process's local
    timezone at a given wall-clock time. *)
Variable local_offset : Z -> Z.

(** [float(v)] *)
Definition py_float (v : pyval) : result Q :=
  match v with
  | PInt n =>
      if Z.abs n <? float_int_limit then Ok (inject_Z n) else Raise OverflowError
  | PBool b => Ok (if b then 1%Q else 0%Q)
  | PFloat x => Ok x
  | PStr s =>
      match float_of_str s with
      | Some x => Ok x
      | None => Raise ValueError
      end
  | PNone | PList _ | PDict _ => Raise TypeError
  end.

(** [ts.replace("Z", "")] on a str: every occurrence goes. *)
Fixpoint remove_Z (s : string) : string :=
  match s with
  | EmptyString => EmptyString
  | String c s' =>
      if Ascii.eqb c "Z"%char then remove_Z s' else String c (remove_Z s')
  end.

(** [d.timestamp()]: an aware value is read on its own offset and never
    raises.  A naive value is read on the local clock; CPython finds its
    instant by converting three instants back to local time (the wall
    clock taken as UTC, the candidate, and the candidate a day earlier),
    and raises ValueError when one of them leaves the calendar. *)
Definition timestamp (d : datetime) : result Q :=
  match dt_offset d with
  | Some o => Ok (inject_Z (dt_wall d - o) + inject_Z (dt_micro d) / 1000000)%Q
  | None =>
      let a := local_offset (dt_wall d) in
      if in_calendar (dt_wall d + a) && in_calendar (dt_wall d - 86400)
      then Ok (inject_Z (dt_wall d - a) + inject_Z (dt_micro d) / 1000000)%Q
      else Raise ValueError
  end.

Definition parse_time (ts : pyval) : result Q :=
  match ts with
  | PInt _ | PBool _ | PFloat _ => py_float ts
  | PStr s =>
      Ok (try_except
            (match fromisoformat (remove_Z s) with
             | Some d => timestamp d
             | None => Raise ValueError
             end) 0%Q)
  | PNone | PList _ | PDict _ => Ok (try_except (Raise AttributeError) 0%Q)
  end.

(** An argument that is neither a number nor a string the ISO parser
    accepts once its "Z" are removed. *)
Definition unparseable (ts : pyval) : Prop :=
  match ts with
  | PInt _ | PBool _ | PFloat _ => False
  | PStr s => fromisoformat (remove_Z s) = None
  | PNone | PList _ | PDict _ => True
  end.

(** The body of the [try] in the ingestion loop: any exception skips the
    record. *)
Definition coords (r : list (string * pyval)) : result (Q * Q * Q) :=
  let st := dict_get r "station" (PDict []) in
  let* lonv := subscript st "longitude" in
  let* lon := py_float lonv in
  let* latv := subscript st "latitude" in
  let* lat := py_float latv in
  let* mufv := subscript (PDict r) "mufd" in
  let* muf := py_float mufv in
  Ok (lon, lat, muf).

(** [now - t > 3600] *)
Definition stale (now t : Q) : bool := Qltb 3600 (now - t).

(** [if conf>1: conf/=100] *)
Definition rescale (conf : Q) : Q :=
  if Qltb 1 conf then (conf / 100)%Q else conf.

Definition confidence (r : list (string * pyval)) : result Q :=
  let* conf := py_float (dict_get r "confidence" (PInt 1)) in
  Ok (rescale conf).

(** One turn of the loop over [raw]: [Ok None] is [continue], [Ok (Some p)]
    is [pts.append(p)], [Raise] leaves [main]. *)
Definition ingest_record (now : Q) (r : list (string * pyval))
  : result (option (Q * Q * Q * Q)) :=
  match caught (coords r) with
  | None => Ok None
  | Some (lon, lat, muf) =>
      let* t := parse_time (dict_get r "time" PNone) in
      if stale now t then Ok None
      else
        let* conf := confidence r in
        Ok (Some (lon, lat, muf, conf))
  end.

Fixpoint ingest (now : Q) (raw : list (list (string * pyval)))
  : result (list (Q * Q * Q * Q)) :=
  match raw with
  | [] => Ok []
  | r :: raw' =>
      let* o := ingest_record now r in
      let* pts := ingest now raw' in
      Ok (match o with Some p => p :: pts | None => pts end)
  end.

End Ingestion.

(** ** An instance of the ISO parser

    The two shapes [YYYY-MM-DD] and [YYYY-MM-DD?HH:MM:SS] (any one character
    between date and time), which every [datetime.fromisoformat] accepts and
    reads as a naive value.  Other strings are refused by this instance. *)

Definition digit (c : ascii) : option Z :=
  let n := Z.of_nat (nat_of_ascii c) in
  if (48 <=? n) && (n <=? 57) then Some (n - 48) else None.

Fixpoint number (acc : Z) (cs : list ascii) : option Z :=
  match cs with
  | [] => Some acc
  | c :: cs' =>
      match digit c with
      | Some d => number (10 * acc + d) cs'
      | None => None
      end
  end.

Definition is_leap (y : Z) : bool :=
  (y mod 4 =? 0) && (negb (y mod 100 =? 0) || (y mod 400 =? 0)).

Definition days_in_month (y m : Z) : Z :=
  if m =? 2 then (if is_leap y then 29 else 28)
  else if (m =? 4) || (m =? 6) || (m =? 9) || (m =? 11) then 30
  else 31.

(** Days from 1970-01-01 to the civil date [y-m-d] of the proleptic
    Gregorian calendar. *)
Definition days_from_civil (y m d : Z) : Z :=
  let y' := if m <=? 2 then y - 1 else y in
  let era := y' / 400 in
  let yoe := y' - era * 400 in
  let mp := (m + 9) mod 12 in
  let doy := (153 * mp + 2) / 5 + d - 1 in
  let doe := yoe * 365 + yoe / 4 - yoe / 100 + doy in
  era * 146097 + doe - 719468.

Definition civil (y m d hh mm ss : Z) : option datetime :=
  if (1 <=? y) && (y <=? 9999) && (1 <=? m) && (m <=? 12)
     && (1 <=? d) && (d <=? days_in_month y m)
     && (hh <? 24) && (mm <? 60) && (ss <? 60)
  then Some (mk_datetime (days_from_civil y m d * 86400 + hh * 3600 + mm * 60 + ss) 0 None)
  else None.

Definition opt_bind {A B} (o : option A) (f : A -> option B) : option B :=
  match o with
  | Some a => f a
  | None => None
  end.

Definition iso_basic (s : string) : option datetime :=
  match list_ascii_of_string s with
  | [y1; y2; y3; y4; "-"; m1; m2; "-"; d1; d2]%char =>
      opt_bind (number 0 [y1; y2; y3; y4]) (fun y =>
      opt_bind (number 0 [m1; m2]) (fun m =>
      opt_bind (number 0 [d1; d2]) (fun d => civil y m d 0 0 0)))
  | [y1; y2; y3; y4; "-"; m1; m2; "-"; d1; d2; _;
     h1; h2; ":"; i1; i2; ":"; s1; s2]%char =>
      opt_bind (number 0 [y1; y2; y3; y4]) (fun y =>
      opt_bind (number 0 [m1; m2]) (fun m =>
      opt_bind (number 0 [d1; d2]) (fun d =>
      opt_bind (number 0 [h1; h2]) (fun hh =>
      opt_bind (number 0 [i1; i2]) (fun mm =>
      opt_bind (number 0 [s1; s2]) (fun ss => civil y m d hh mm ss))))))
  | _ => None
  end.

(** ** Grid coordinates *)

(** [int(x)] on a float: truncation toward zero. *)
Definition py_int (q : Q) : Z := Z.quot (Qnum q) (Zpos (Qden q)).

Definition lonlat_to_xy (lon lat : Q) (w h : Z) : Z * Z :=
  let x := py_int ((lon + 180) / 360 * inject_Z (w - 1))%Q in
  let y := py_int ((90 - lat) / 180 * inject_Z (h - 1))%Q in
  (Z.max 0 (Z.min (w - 1) x), Z.max 0 (Z.min (h - 1) y)).

(** ** Colour ramp *)

Definition stops : list (Q * Q * Q * Q) :=
  [ (5, 0, 0, 180); (10, 0, 180, 255); (15, 0, 255, 0);
    (20, 255, 255, 0); (25, 255, 165, 0); (30, 255, 60, 0); (35, 255, 0, 0) ]%Q.

(** [np.interp] once the left end is passed: [x0 <= x]; the segment is the
    first one whose right end lies beyond [x]; past the last point the value
    is the last ordinate. *)
Fixpoint interp_from (x x0 y0 : Q) (rest : list (Q * Q)) : Q :=
  match rest with
  | [] => y0
  | (x1, y1) :: rest' =>
      if Qltb x x1 then
        if Qeq_bool x0 x then y0
        else ((y1 - y0) / (x1 - x0) * (x - x0) + y0)%Q
      else interp_from x x1 y1 rest'
  end.

(** [np.interp(x, xp, fp)] for one abscissa. *)
Definition np_interp (x : Q) (xp fp : list Q) : result Q :=
  match combine xp fp with
  | [] => Raise ValueError
  | (x0, y0) :: rest =>
      if Qltb x x0 then Ok y0 else Ok (interp_from x x0 y0 rest)
  end.

(** [astype(np.uint8)] on a float. *)
Definition to_uint8 (q : Q) : Z := py_int q mod 256.

Definition stop_x (s : Q * Q * Q * Q) : Q := fst (fst (fst s)).
Definition stop_r (s : Q * Q * Q * Q) : Q := snd (fst (fst s)).
Definition stop_g (s : Q * Q * Q * Q) : Q := snd (fst s).
Definition stop_b (s : Q * Q * Q * Q) : Q := snd s.

(** The three calls of [np.interp] on one sample, before the cast. *)
Definition ramp (mhz : Q) : result (Q * Q * Q) :=
  let xs := map stop_x stops in
  let rs := map stop_r stops in
  let gs := map stop_g stops in
  let bs := map stop_b stops in
  let* r := np_interp mhz xs rs in
  let* g := np_interp mhz xs gs in
  let* b := np_interp mhz xs bs in
  Ok (r, g, b).

(** [colormap] on one sample. *)
Definition colormap1 (mhz : Q) : result (Z * Z * Z) :=
  let* c := ramp mhz in
  Ok (to_uint8 (fst (fst c)), to_uint8 (snd (fst c)), to_uint8 (snd c)).

(** The value at [x] of the line through [(x0, y0)] and [(x1, y1)]. *)
Definition line (x0 y0 x1 y1 x : Q) : Q :=
  (y0 + (y1 - y0) / (x1 - x0) * (x - x0))%Q.

(** Two outputs follow the direction of the ordinates [c0], [c1] of a
    segment. *)
Definition along (c0 c1 : Q) (v v' : Z) : Prop :=
  ((c0 <= c1)%Q -> v <= v') /\ ((c1 <= c0)%Q -> v' <= v).

Definition colormap (mhz : list (list Q)) : result (list (list (Z * Z * Z))) :=
  rmapM (rmapM colormap1) mhz.

(** ** Geodesic distance *)

(** [x % m] for a positive modulus, as the real number it stands for.
    Over the reals the result lies in [[0, m)]; on floats the last
    rounding can return [m] itself, for a negative [x] next to zero. *)
Definition fmod (x m : R) : R := (x - m * IZR (Int_part (x / m)))%R.

(** The longitude difference of [haversine_rad], after normalisation. *)
Definition dlon_of (lon1 lon2 : R) : R := (fmod (lon2 - lon1 + PI) (2 * PI) - PI)%R.

Definition haversine_rad (lon1 lat1 lon2 lat2 : R) : R :=
  let dlon := dlon_of lon1 lon2 in
  let dlat := (lat2 - lat1)%R in
  let a := ((sin (dlat / 2)) ^ 2 + cos lat1 * cos lat2 * (sin (dlon / 2)) ^ 2)%R in
  (2 * asin (sqrt a))%R.

(** ** Solar illumination *)

Definition deg2rad (d : R) : R := (d * PI / 180)%R.

(** [x ** y] on floats for a base that is not negative. *)
Definition fpow (x y : R) : R :=
  if Req_dec_T x 0 then 0%R else Rpower x y.

(** [np.clip(x, lo, hi)] *)
Definition clip (lo hi x : R) : R := Rmin (Rmax x lo) hi.

Definition solar_mu0 (lat lon t : R) : R :=
  let jd := (t / 86400 + 24405875 / 10)%R in
  let n := (jd - 2451545)%R in
  let L := deg2rad (fmod (28046 / 100 + 9856474 / 10000000 * n) 360) in
  let g := deg2rad (fmod (357528 / 1000 + 9856003 / 10000000 * n) 360) in
  let lam := (L + deg2rad (1915 / 1000 * sin g + 20 / 1000 * sin (2 * g)))%R in
  let eps := deg2rad (23439 / 1000) in
  let delta := asin (sin eps * sin lam) in
  let gmst := fmod (28046061837 / 100000000 + 36098564736629 / 100000000000 * n) 360 in
  let H := deg2rad (fmod (lon + gmst + 540) 360 - 180) in
  let phi := deg2rad lat in
  let mu0 := (sin phi * sin delta + cos phi * cos delta * cos H)%R in
  clip 0 1 mu0.

(** ** Field interpolator *)

(** The element type of a numpy array: arithmetic with a Python object that
    is not a number ([None]) yields an [object] array. *)
Inductive dtype : Type := Float64 | Object.

Record ndarray : Type := mk_nd { nd_dtype : dtype; nd_data : list R }.

Definition np_array (l : list R) : ndarray := mk_nd Float64 l.

(** [None * a]: the product is taken element by element with Python's [*],
    and [None * x] raises TypeError; an array without elements gives an
    empty [object] array. *)
Definition none_times (a : ndarray) : result ndarray :=
  match nd_data a with
  | [] => Ok (mk_nd Object [])
  | _ :: _ => Raise TypeError
  end.

Definition nd_add (a b : ndarray) : ndarray :=
  mk_nd (match nd_dtype a, nd_dtype b with
         | Float64, Float64 => Float64
         | _, _ => Object
         end)
        (zip_with Rplus (nd_data a) (nd_data b)).

(** [np.exp] on one element: an element of an [object] array is a Python
    float, which has no [exp] method. *)
Definition np_exp (dt : dtype) (x : R) : result R :=
  match dt with
  | Float64 => Ok (exp x)
  | Object => Raise TypeError
  end.

(** [np.linspace(start, stop, n)] *)
Definition linspace (start stop : R) (n : Z) : result (list R) :=
  if n <? 0 then Raise ValueError
  else if n =? 1 then Ok [start]
  else Ok (map (fun i => (start + INR i * ((stop - start) / IZR (n - 1)))%R)
               (seq 0 (Z.to_nat n))).

(** [range(0, stop, step)] *)
Definition py_range (stop step : Z) : list nat :=
  map (fun i => (i * Z.to_nat step)%nat) (seq 0 (Z.to_nat ((stop + step - 1) / step))).

(** [l[:k]] *)
Definition slice_to {A} (k : Z) (l : list A) : list A :=
  if 0 <=? k then firstn (Z.to_nat k) l
  else firstn (Z.to_nat (Z.of_nat (length l) + k)) l.

Fixpoint insert_by (d : list R) (i : nat) (l : list nat) : list nat :=
  match l with
  | [] => [i]
  | j :: l' =>
      if Rle_dec (nth i d 0%R) (nth j d 0%R) then i :: l else j :: insert_by d i l'
  end.

(** Indices of [d] in ascending order of distance. *)
Definition argsort (d : list R) : list nat :=
  fold_right (insert_by d) [] (seq 0 (length d)).

(** [np.argpartition(d, kth)] along the observation axis of one cell: a
    negative [kth] counts from the end, and on an array that has elements
    [kth] must index one.  Which permutation with the [kth] smallest in
    front is returned is implementation-defined; the sorted one is taken. *)
Definition argpartition (d : list R) (kth : Z) : result (list nat) :=
  let n := Z.of_nat (length d) in
  let kth' := if kth <? 0 then kth + n else kth in
  if negb (n =? 0) && ((kth' <? 0) || (n <=? kth')) then Raise ValueError
  else Ok (argsort d).

Definition rsum (l : list R) : R := fold_right Rplus 0%R l.

Definition EARTH_RADIUS_KM : R := 6371%R.

Record args : Type := mk_args {
  grid_w : Z;
  grid_h : Z;
  k : Z;
  p : R;
  influence_km : R;
  use_sza : bool
}.

Definition default_args : args := mk_args 720 360 16 (28 / 10)%R 4000%R false.

Section Interpolator.

Variable a : args.
Variable now : R.
(** [lonsr], [latsr], [vals], [confs] of [main]. *)
Variables lonsr latsr vals confs : list R.

Definition maxrad : R := (influence_km a / EARTH_RADIUS_KM)%R.

(** One grid cell of a band: lines 154 to 169 at one [(glon, glat)], with
    [lat2] the fourth argument of the call of [haversine_rad]. *)
Definition cell (lat2 : ndarray) (glon glat : R) : result R :=
  let d := zip_with (haversine_rad (deg2rad glon) (deg2rad glat))
                    lonsr (nd_data lat2) in
  let* part := argpartition d (k a - 1) in
  let idx := slice_to (k a) part in
  let dk := map (fun i => nth i d 0%R) idx in
  let w := map (fun x => (1 / fpow (x + 1 / 1000000) (p a))%R) dk in
  let w := zip_with Rmult w (map (fun i => nth i confs 0%R) idx) in
  let w := zip_with (fun x wi => if Rle_dec x maxrad then wi else 0%R) dk w in
  let latfac := fpow (cos (deg2rad (Rabs glat))) (3 / 2) in
  let w := map (fun wi => (wi * latfac)%R) w in
  let w :=
    if use_sza a
    then map (fun wi => (wi * fpow (solar_mu0 glat glon now) (7 / 10))%R) w
    else w in
  let v := map (fun i => nth i vals 0%R) idx in
  np_exp (nd_dtype lat2) (rsum (zip_with Rmult w v) / (rsum w + 1 / 10 ^ 9))%R.

(** One turn of the loop over [range(0, grid_h, 32)]: the rows [glat] of
    the band, every column [glon]. *)
Definition band (xs rows : list R) : result (list (list R)) :=
  let* nl := none_times (np_array lonsr) in
  let lat2 := nd_add nl (np_array latsr) in
  rmapM (fun glat => rmapM (fun glon => cell lat2 glon glat) xs) rows.

End Interpolator.

(** [vals] of [main]: the logarithm of the clamped observation values. *)
Definition log_values (pts : list (Q * Q * Q * Q)) : list R :=
  map (fun pt => ln (clip 5 35 (Q2R (snd (fst pt))))) pts.

(** [np.clip(out, 5, 35)] *)
Definition clip_field (out : list (list R)) : list (list R) :=
  map (map (clip 5 35)) out.

Definition in_band (v : R) : Prop := (5 <= v <= 35)%R.

(** Lines 138 to 171 of [main]: from the retained points to the clamped
    field, row by row. *)
Definition interpolate (a : args) (now : R) (pts : list (Q * Q * Q * Q))
  : result (list (list R)) :=
  let lons := map (fun pt => Q2R (fst (fst (fst pt)))) pts in
  let lats := map (fun pt => Q2R (snd (fst (fst pt)))) pts in
  let vals := log_values pts in
  let confs := map (fun pt => Q2R (snd pt)) pts in
  let lonsr := map deg2rad lons in
  let latsr := map deg2rad lats in
  let* xs := linspace (-180) 180 (grid_w a) in
  let* ys := linspace 90 (-90) (grid_h a) in
  let* bands :=
    rmapM (fun y => band a now lonsr latsr vals confs xs (firstn 32 (skipn y ys)))
          (py_range (grid_h a) 32) in
  Ok (clip_field (concat bands)).

(** A run of lines 138 to 171 that hands over a field with every value in
    the band. *)
Definition yields_field_within (a : args) (now : R) (pts : list (Q * Q * Q * Q)) : Prop :=
  exists field, interpolate a now pts = Ok field /\ Forall (Forall in_band) field.

(** ** Bitmap persistence *)

(** [struct.pack] with the byte order [<]: the codes [I] (unsigned 32 bit),
    [i] (signed 32 bit), [H] (unsigned 16 bit) and [<n>s] (n bytes). *)
Inductive fmt : Type := FI | Fi | FH | Fs (n : nat).

Inductive item : Type :=
| IInt (v : Z)
| IBytes (b : list Z).

Fixpoint le_bytes (n : nat) (v : Z) : list Z :=
  match n with
  | O => []
  | S n' => Z.land v 255 :: le_bytes n' (Z.shiftr v 8)
  end.

(** The codes of a format string, a repeat count in front of a code read in
    decimal. *)
Fixpoint parse_fmt (count : option nat) (s : string) : result (list fmt) :=
  match s with
  | EmptyString =>
      match count with
      | None => Ok []
      | Some _ => Raise StructError
      end
  | String c s' =>
      let n := nat_of_ascii c in
      if (48 <=? n)%nat && (n <=? 57)%nat then
        parse_fmt (Some (10 * match count with Some m => m | None => O end + (n - 48))%nat) s'
      else
        let rep := match count with Some m => m | None => 1%nat end in
        let* rest := parse_fmt None s' in
        if Ascii.eqb c "I" then Ok (repeat FI rep ++ rest)
        else if Ascii.eqb c "i" then Ok (repeat Fi rep ++ rest)
        else if Ascii.eqb c "H" then Ok (repeat FH rep ++ rest)
        else if Ascii.eqb c "s" then Ok (Fs rep :: rest)
        else Raise StructError
  end.

Definition pack1 (f : fmt) (v : item) : result (list Z) :=
  match f, v with
  | FI, IInt v =>
      if (0 <=? v) && (v <? 2 ^ 32) then Ok (le_bytes 4 v) else Raise StructError
  | Fi, IInt v =>
      if (- 2 ^ 31 <=? v) && (v <? 2 ^ 31) then Ok (le_bytes 4 (v mod 2 ^ 32))
      else Raise StructError
  | FH, IInt v =>
      if (0 <=? v) && (v <? 2 ^ 16) then Ok (le_bytes 2 v) else Raise StructError
  | Fs n, IBytes b => Ok (firstn n b ++ repeat 0 (n - length b))
  | _, _ => Raise StructError
  end.

Fixpoint pack_items (fs : list fmt) (vs : list item) : result (list Z) :=
  match fs, vs with
  | [], [] => Ok []
  | f :: fs', v :: vs' =>
      let* b := pack1 f v in
      let* bs := pack_items fs' vs' in
      Ok (b ++ bs)
  | _, _ => Raise StructError
  end.

(** [struct.pack(format, *values)]: the number of values is checked against
    the format before any of them is converted. *)
Definition struct_pack (format : string) (values : list item) : result (list Z) :=
  match format with
  | String "<" codes =>
      let* fs := parse_fmt None codes in
      if (length fs =? length values)%nat then pack_items fs values
      else Raise StructError
  | _ => Raise StructError
  end.

(** An image as [write_bmp] reads it: [img.size] and
    [img.convert("RGB").tobytes()]. *)
Record image : Type := mk_image {
  img_w : Z;
  img_h : Z;
  img_rgb : list Z
}.

Definition rgb565 (r g b : Z) : Z :=
  Z.lor (Z.lor (Z.shiftl (Z.shiftr r 3) 11) (Z.shiftl (Z.shiftr g 2) 5)) (Z.shiftr b 3).

(** One turn of the inner loop of [write_bmp]. *)
Definition pixel (rgb : list Z) (w : Z) (y x : nat) : result (list Z) :=
  let i := Z.to_nat ((Z.of_nat y * w + Z.of_nat x) * 3) in
  match firstn 3 (skipn i rgb) with
  | [r; g; b] => struct_pack "<H" [IInt (rgb565 r g b)]
  | _ => Raise ValueError
  end.

Definition encode_rows (img : image) : result (list Z) :=
  let* rows :=
    rmapM (fun y =>
             let* row := rmapM (pixel (img_rgb img) (img_w img) y)
                               (seq 0 (Z.to_nat (img_w img))) in
             Ok (concat row))
          (seq 0 (Z.to_nat (img_h img))) in
  Ok (concat rows).



(** The file system: the content of every path that exists.  [seen] keeps
    every state the files went through, which is what another process can
    have read. *)
Record world : Type := mk_world {
  files : gmap string (list Z);
  seen : list (gmap string (list Z))
}.

Definition commit (w : world) (fs' : gmap string (list Z)) : world :=
  mk_world fs' (files w :: seen w).

(** How a call into the operating system ends. *)
Inductive wfault : Type :=
| WriteOk
| OpenFails
| WriteFails (written : nat)
| FlushFails (written : nat).

Inductive rfault : Type :=
| ReplaceOk
| ReplaceFails.

Record faults : Type := mk_faults {
  f_tmp : wfault;
  f_ztmp : wfault;
  f_mv : rfault;
  f_mvz : rfault
}.

Definition io (A : Type) : Type := world -> result A * world.

Definition io_bind {A B} (m : io A) (f : A -> io B) : io B :=
  fun w =>
    match m w with
    | (Ok a, w') => f a w'
    | (Raise e, w') => (Raise e, w')
    end.

Notation "m1 '>>' m2" := (io_bind m1 (fun _ => m2))
  (at level 62, right associativity).

(** [open(path, "wb").write(data)]: the file is created or truncated, then
    filled; a failure of the write leaves what was written so far.  The
    file object is never closed by the code: what [write] left in its
    buffer is flushed when the object is dropped, and an error of that
    flush is discarded, so the statement ends without an exception and the
    file holds a part of the data. *)
Definition write_file (f : wfault) (path : string) (data : list Z) : io unit :=
  fun w =>
    match f with
    | WriteOk => (Ok tt, commit (commit w (<[path := []]> (files w))) (<[path := data]> (files w)))
    | OpenFails => (Raise OSError, w)
    | WriteFails n =>
        (Raise OSError,
         commit (commit w (<[path := []]> (files w))) (<[path := firstn n data]> (files w)))
    | FlushFails n =>
        (Ok tt,
         commit (commit w (<[path := []]> (files w))) (<[path := firstn n data]> (files w)))
    end.

(** [os.replace(src, dst)] *)
Definition os_replace (f : rfault) (src dst : string) : io unit :=
  fun w =>
    match f, files w !! src with
    | ReplaceOk, Some d => (Ok tt, commit w (<[dst := d]> (delete src (files w))))
    | _, _ => (Raise OSError, w)
    end.

Section Persist.

(** [zlib.compress(data, 9)] *)
Variable zlib_compress : list Z -> list Z.

(** Lines 100 to 103 of [write_bmp]. *)
Definition write_files (ft : faults) (bmp : list Z) (out : string) : io unit :=
  write_file (f_tmp ft) (out +:+ ".tmp") bmp >>
  write_file (f_ztmp ft) (out +:+ ".z.tmp") (zlib_compress bmp) >>
  os_replace (f_mv ft) (out +:+ ".tmp") out >>
  os_replace (f_mvz ft) (out +:+ ".z.tmp") (out +:+ ".z").


End Persist.

(** ** Concrete inputs *)

(** A station report in the shape of the feed, used at concrete inputs. *)
Definition report (time confidence : list (string * pyval)) : list (string * pyval) :=
  [ ("station", PDict [("longitude", PFloat 10); ("latitude", PFloat 20)]);
    ("mufd", PFloat 12) ]%string ++ time ++ confidence.

Definition no_float (s : string) : option Q := None.
Definition utc_plus (h : Z) (wall : Z) : Z := h * 3600.

(** An argument of [parse_time] that is an int fits a float. *)
Definition fits_float (ts : pyval) : Prop :=
  match ts with
  | PInt n => Z.abs n < float_int_limit
  | _ => True
  end.

(** ** Shapes of inputs used in the statements *)

(** A byte of [tobytes()]. *)
Definition is_byte (z : Z) : Prop := 0 <= z < 256.

(** An image as PIL hands it over: [w * h] pixels of three bytes. *)
Definition well_formed (img : image) : Prop :=
  0 <= img_w img /\ 0 <= img_h img /\
  Z.of_nat (length (img_rgb img)) = 3 * img_w img * img_h img /\
  Forall is_byte (img_rgb img).

(** The packed value of the three fields [r5], [g6], [b5] of a pixel, and
    what reading the fields back has to give. *)
Definition pack565 (r5 g6 b5 : Z) : Z :=
  Z.lor (Z.lor (Z.shiftl r5 11) (Z.shiftl g6 5)) b5.

Definition fields_ok (r5 g6 b5 : Z) : bool :=
  let v := pack565 r5 g6 b5 in
  (0 <=? v) && (v <? 65536) &&
  (Z.shiftr v 11 =? r5) && (Z.land (Z.shiftr v 5) 63 =? g6) && (Z.land v 31 =? b5).

Definition upto (n : nat) : list Z := map Z.of_nat (seq 0 n).

Definition all_fields_ok : bool :=
  forallb (fun r5 => forallb (fun g6 => forallb (fields_ok r5 g6) (upto 32)) (upto 64))
          (upto 32).

(** A station record that cannot give coordinates and a value: no "mufd",
    no "station", a "station" that is not an object, or one without
    "longitude" or "latitude". *)
Definition malformed (r : list (string * pyval)) : Prop :=
  assoc "mufd" r = None \/
  assoc "station" r = None \/
  (exists v, assoc "station" r = Some v /\ forall d, v <> PDict d) \/
  (exists d, assoc "station" r = Some (PDict d) /\
             (assoc "longitude" d = None \/ assoc "latitude" d = None)).

(** A value that [astype(np.uint8)] takes without wrapping. *)
Definition fits_uint8 (q : Q) : Prop := (0 <= q <= 255)%Q.

(** A pixel [c] of [colormap] for the sample [x] when no cast wraps: the
    three interpolated values lie in 0..255 and every channel is the
    integer part of its value. *)
Definition unwrapped (x : Q) (c : Z * Z * Z) : Prop :=
  exists r g b,
    ramp x = Ok (r, g, b) /\ fits_uint8 r /\ fits_uint8 g /\ fits_uint8 b /\
    c = (Qfloor r, Qfloor g, Qfloor b).

(** * Properties *)

(** ** Result monad and rational comparisons *)

Lemma Qltb_lt x y : Qltb x y = true <-> (x < y)%Q.
Proof.
  unfold Qltb. rewrite negb_true_iff. split.
  - intros H. apply Qnot_le_lt. intros Hle.
    apply Qle_bool_iff in Hle. congruence.
  - intros H. destruct (Qle_bool y x) eqn:E; [|reflexivity].
    apply Qle_bool_iff in E. exfalso. exact (Qlt_not_le _ _ H E).
Qed.

Lemma Qltb_ge x y : Qltb x y = false <-> (y <= x)%Q.
Proof.
  unfold Qltb. rewrite negb_false_iff. apply Qle_bool_iff.
Qed.

Lemma rbind_Ok {A B} (m : result A) (f : A -> result B) b :
  rbind m f = Ok b -> exists a, m = Ok a /\ f a = Ok b.
Proof.
  destruct m as [a|e]; simpl; [eauto | discriminate].
Qed.

(** ** Sample ingestion *)

Section IngestionProperties.

Variable float_of_str : string -> option Q.
Variable fromisoformat : string -> option datetime.
Variable local_offset : Z -> Z.

Local Abbreviation parse_time' := (parse_time float_of_str fromisoformat local_offset).
Local Abbreviation coords' := (coords float_of_str).
Local Abbreviation confidence' := (confidence float_of_str).
Local Abbreviation ingest_record' := (ingest_record float_of_str fromisoformat local_offset).
Local Abbreviation py_float' := (py_float float_of_str).
Local Abbreviation unparseable' := (unparseable fromisoformat).

Lemma stale_spec now t : stale now t = true <-> (3600 < now - t)%Q.
Proof. unfold stale. apply Qltb_lt. Qed.


Lemma rescale_range raw : (0 <= raw <= 100)%Q -> (0 <= rescale raw <= 1)%Q.
Proof.
  intros [H0 H100]. unfold rescale.
  destruct (Qltb 1 raw) eqn:E.
  - apply Qltb_lt in E. split.
    + apply Qle_shift_div_l; [reflexivity|]. lra.
    + apply Qle_shift_div_r; [reflexivity|]. lra.
  - apply Qltb_ge in E. split; assumption.
Qed.


(** C4, amended. A retained observation carries [rescale] of the raw
    confidence: 1 when the field is absent, the raw value over 100 when it
    exceeds 1, the raw value itself otherwise; it lies in [0,1] whenever
    the raw value lies in [0,100]. *)
Theorem retained_confidence now r lon lat muf c :
  ingest_record' now r = Ok (Some (lon, lat, muf, c)) ->
  exists raw,
    py_float' (dict_get r "confidence" (PInt 1)) = Ok raw /\
    (assoc "confidence" r = None -> c = 1%Q) /\
    ((1 < raw)%Q -> c = (raw / 100)%Q) /\
    ((raw <= 1)%Q -> c = raw) /\
    ((0 <= raw <= 100)%Q -> (0 <= c <= 1)%Q) /\
    (rescale 50 == 1 # 2)%Q /\ rescale (1 # 2) = (1 # 2)%Q.
Proof.
  unfold ingest_record. intros H.
  destruct (caught (coords' r)) as [[[lon' lat'] muf']|]; [|discriminate].
  apply rbind_Ok in H as (t & _ & H).
  destruct (stale now t); [discriminate|].
  apply rbind_Ok in H as (conf & Hconf & H).
  injection H as -> -> -> ->.
  unfold confidence in Hconf.
  apply rbind_Ok in Hconf as (raw & Hraw & Hconf).
  injection Hconf as <-.
  exists raw. split; [exact Hraw|].
  split; [|split; [|split; [|split; [|split]]]].
  - intros Habs. unfold dict_get in Hraw. rewrite Habs in Hraw.
    simpl in Hraw. injection Hraw as <-. reflexivity.
  - intros Hgt. unfold rescale. apply Qltb_lt in Hgt. rewrite Hgt. reflexivity.
  - intros Hle. unfold rescale. apply Qltb_ge in Hle. rewrite Hle. reflexivity.
  - apply rescale_range.
  - reflexivity.
  - reflexivity.
Qed.

(** C10, amended. [parse_time'] returns a float and does not raise on
    every argument except an int too large for a float, and every
    argument that is not a number and that the ISO parser refuses gives
    exactly 0. *)
Theorem parse_time_total ts :
  fits_float ts ->
  (exists x, parse_time' ts = Ok x) /\
  (unparseable' ts -> parse_time' ts = Ok 0%Q).
Proof.
  intros Hfit. destruct ts as [ | b | n | x | s | l | d ]; simpl in *.
  - split; [eexists; reflexivity | reflexivity].
  - split; [eexists; reflexivity | intros []].
  - apply Z.ltb_lt in Hfit. rewrite Hfit.
    split; [eexists; reflexivity | intros []].
  - split; [eexists; reflexivity | intros []].
  - split; [eexists; reflexivity |].
    intros ->. reflexivity.
  - split; [eexists; reflexivity | reflexivity].
  - split; [eexists; reflexivity | reflexivity].
Qed.

(** A string that the ISO parser reads as a naive value, once its "Z" are
    gone, is placed on the local clock: the result moves with the offset of
    the host. *)
Lemma parse_time_naive_string (s : string) (wall micro : Z) :
  fromisoformat (remove_Z s) = Some (mk_datetime wall micro None) ->
  in_calendar (wall + local_offset wall) && in_calendar (wall - 86400) = true ->
  parse_time' (PStr s) =
  Ok (inject_Z (wall - local_offset wall) + inject_Z micro / 1000000)%Q.
Proof.
  intros H Hin. cbn. rewrite H. unfold timestamp. cbn. rewrite Hin. reflexivity.
Qed.

(** Within a day of the calendar's first second, or where the local clock
    reads past an end of the calendar, [timestamp] raises and the [except]
    turns the string into 0. *)
Lemma parse_time_calendar_end (s : string) (wall micro : Z) :
  fromisoformat (remove_Z s) = Some (mk_datetime wall micro None) ->
  in_calendar (wall + local_offset wall) && in_calendar (wall - 86400) = false ->
  parse_time' (PStr s) = Ok 0%Q.
Proof.
  intros H Hout. cbn. rewrite H. unfold timestamp. cbn. rewrite Hout. reflexivity.
Qed.

Lemma parse_time_float (x : Q) : parse_time' (PFloat x) = Ok x.
Proof. reflexivity. Qed.

Lemma parse_time_int (n : Z) :
  Z.abs n < float_int_limit -> parse_time' (PInt n) = Ok (inject_Z n).
Proof.
  intros H. cbn. apply Z.ltb_lt in H. rewrite H. reflexivity.
Qed.

(** A record whose time is unparseable is dropped as soon as [now] is past
    the first hour of the epoch. *)
Lemma unparseable_time_rejected (now : Q) (r : list (string * pyval)) :
  unparseable' (dict_get r "time" PNone) -> (3600 < now)%Q ->
  ingest_record' now r = Ok None.
Proof.
  intros Hun Hnow. unfold ingest_record.
  destruct (caught (coords' r)) as [[[lon lat] muf]|]; [|reflexivity].
  assert (Ht : parse_time' (dict_get r "time" PNone) = Ok 0%Q).
  { destruct (dict_get r "time" PNone); cbn in *;
      try contradiction; try reflexivity.
    rewrite Hun. reflexivity. }
  rewrite Ht. cbn [rbind].
  assert (Hs : stale now 0 = true) by (apply stale_spec; lra).
  rewrite Hs. reflexivity.
Qed.

End IngestionProperties.


(** C4 as stated fails: a raw confidence of 500 is divided by 100 once and
    the record is retained with confidence 5. *)
Lemma confidence_500_retained_above_one :
  exists c,
    ingest_record no_float iso_basic (utc_plus 0) 0
      (report [("time", PInt 0)]%string [("confidence", PInt 500)]%string)
    = Ok (Some (10, 20, 12, c)%Q) /\ ~ (0 <= c <= 1)%Q.
Proof.
  eexists. split; [reflexivity|].
  intros [_ H]. vm_compute in H. apply H. reflexivity.
Qed.

Lemma retained_confidence_witness :
  let r := report [("time", PInt 0)]%string [("confidence", PInt 50)]%string in
  ingest_record no_float iso_basic (utc_plus 0) 0 r = Ok (Some (10, 20, 12, 50 / 100)%Q) /\
  (0 <= 50 / 100 <= 1)%Q.
Proof.
  intros r. split; [reflexivity|].
  destruct (retained_confidence no_float iso_basic (utc_plus 0) 0 r 10 20 12 (50 / 100)
              eq_refl) as (raw & Hraw & _ & _ & _ & Hrange & _).
  injection Hraw as <-. apply Hrange. split; discriminate.
Defined.

(** C10 as stated fails: an int beyond the range of a float makes
    [float(ts)] raise, outside the [try]. *)
Lemma parse_time_huge_int_raises :
  parse_time no_float iso_basic (utc_plus 0) (PInt (10 ^ 400)) = Raise OverflowError.
Proof. reflexivity. Qed.

Lemma parse_time_total_witness :
  fits_float (PInt 1700000000) /\
  exists x, parse_time no_float iso_basic (utc_plus 0) (PInt 1700000000) = Ok x.
Proof.
  split; [reflexivity|].
  apply (parse_time_total no_float iso_basic (utc_plus 0) (PInt 1700000000)).
  reflexivity.
Defined.

(** C2 at the failing input: the trailing "Z" is dropped and the naive
    value is read on the local clock, so the same string gives the UTC epoch
    1704067200 on a host at UTC and 1704063600 on a host one hour east. *)
Theorem parse_time_Z_read_on_local_clock :
  (exists x, parse_time no_float iso_basic (utc_plus 0) (PStr "2024-01-01T00:00:00Z") = Ok x
             /\ (x == 1704067200)%Q) /\
  (exists x, parse_time no_float iso_basic (utc_plus 1) (PStr "2024-01-01T00:00:00Z") = Ok x
             /\ (x == 1704063600)%Q).
Proof.
  split; eexists; (split; [reflexivity|]); reflexivity.
Qed.

(** ** Grid coordinates *)

Lemma py_int_scaled (c : positive) (n : Z) :
  py_int (inject_Z (Zpos c) / inject_Z (Zpos c) * inject_Z n)%Q = n.
Proof.
  unfold py_int, Qdiv, Qmult, Qinv, inject_Z. cbn [Qnum Qden].
  rewrite Pos.mul_1_r, Pos.mul_1_l, Z.mul_1_r, (Z.mul_comm (Z.pos c) n).
  apply Z.quot_mul. lia.
Qed.

Lemma py_int_zero (c : positive) (n : Z) :
  py_int (0 / inject_Z (Zpos c) * inject_Z n)%Q = 0.
Proof.
  unfold py_int, Qdiv, Qmult, Qinv, inject_Z. cbn [Qnum Qden].
  rewrite !Z.mul_0_l. apply Z.quot_0_l. lia.
Qed.

(** C8. Inside the stated ranges of longitude and latitude, and for a grid
    of at least 2 by 2, [lonlat_to_xy] lands inside the grid, and the two
    extreme corners go to the corner pixels. *)
Theorem lonlat_to_xy_in_grid (lon lat : Q) (w h : Z) :
  (-180 <= lon <= 180)%Q -> (-90 <= lat <= 90)%Q -> 2 <= w -> 2 <= h ->
  (0 <= fst (lonlat_to_xy lon lat w h) <= w - 1 /\
   0 <= snd (lonlat_to_xy lon lat w h) <= h - 1) /\
  lonlat_to_xy (-180) 90 w h = (0, 0) /\
  lonlat_to_xy 180 (-90) w h = (w - 1, h - 1).
Proof.
  intros _ _ Hw Hh. split; [|split].
  - unfold lonlat_to_xy. cbn [fst snd]. lia.
  - unfold lonlat_to_xy.
    change (-180 + 180)%Q with (0 # 1)%Q. change (90 - 90)%Q with (0 # 1)%Q.
    change 360%Q with (inject_Z 360). change 180%Q with (inject_Z 180).
    rewrite !py_int_zero. f_equal; lia.
  - unfold lonlat_to_xy.
    change (180 + 180)%Q with (inject_Z 360). change (90 - -90)%Q with (inject_Z 180).
    change 360%Q with (inject_Z 360). change 180%Q with (inject_Z 180).
    rewrite !py_int_scaled. f_equal; lia.
Qed.

Lemma lonlat_to_xy_in_grid_witness :
  (-180 <= 0 <= 180)%Q /\ (-90 <= 0 <= 90)%Q /\ 2 <= 720 /\ 2 <= 360 /\
  lonlat_to_xy 180 (-90) 720 360 = (719, 359).
Proof.
  assert (Hlon : (-180 <= 0 <= 180)%Q) by (split; discriminate).
  assert (Hlat : (-90 <= 0 <= 90)%Q) by (split; discriminate).
  assert (Hw : 2 <= 720) by lia.
  assert (Hh : 2 <= 360) by lia.
  repeat (split; [assumption|]).
  exact (proj2 (proj2 (lonlat_to_xy_in_grid 0 0 720 360 Hlon Hlat Hw Hh))).
Defined.

(** ** Colour ramp *)

Ltac split_Qltb x :=
  repeat match goal with
    | |- context [Qltb x ?c] =>
        let E := fresh "E" in
        destruct (Qltb x c) eqn:E;
        [apply Qltb_lt in E | apply Qltb_ge in E]; try (exfalso; lra)
    | |- context [Qeq_bool ?c x] =>
        let E := fresh "E" in
        destruct (Qeq_bool c x) eqn:E;
        [apply Qeq_bool_iff in E | apply Qeq_bool_neq in E]
    end.

(** On the abscissae of the table, [np.interp] is the line of the segment
    that holds [x], both ends included, whatever the ordinates. *)
Lemma interp_segment (fs : list Q) (j : nat) (x : Q) :
  length fs = 7%nat -> (j < 6)%nat ->
  let xs := map stop_x stops in
  (nth j xs 0 <= x <= nth (S j) xs 0)%Q ->
  exists v, np_interp x xs fs = Ok v /\
            (v == line (nth j xs 0) (nth j fs 0) (nth (S j) xs 0) (nth (S j) fs 0) x)%Q.
Proof.
  intros Hlen Hj xs [Hlo Hhi]. subst xs.
  destruct fs as [|y0 [|y1 [|y2 [|y3 [|y4 [|y5 [|y6 [|? ?]]]]]]]]; try discriminate.
  destruct j as [|[|[|[|[|[|j]]]]]]; try lia;
    cbn [nth map stops stop_x fst snd] in *; unfold np_interp, line;
    cbn [combine interp_from];
    split_Qltb x; (eexists; split; [reflexivity|]);
    try (exfalso; match goal with H : ~ (_ == _)%Q |- _ =>
           apply H; apply Qle_antisym; lra end);
    try (match goal with H : (_ == x)%Q |- _ => rewrite <- H end);
    try (assert (Hx : (x == 35)%Q) by (apply Qle_antisym; lra); rewrite Hx);
    field.
Qed.

Lemma py_int_floor (v : Q) : (0 <= v)%Q -> py_int v = Qfloor v.
Proof.
  destruct v as [n d]. unfold Qle, py_int, Qfloor. cbn [Qnum Qden].
  intros H. apply Z.quot_div_nonneg; lia.
Qed.

Lemma to_uint8_floor (v : Q) : (0 <= v)%Q -> (v < 256)%Q -> to_uint8 v = Qfloor v.
Proof.
  intros H0 H256. unfold to_uint8. rewrite py_int_floor by assumption.
  apply Z.mod_small. split.
  - change 0 with (Qfloor 0). apply Qfloor_resp_le. assumption.
  - rewrite Zlt_Qlt. apply Qle_lt_trans with v; [apply Qfloor_le | assumption].
Qed.

Lemma to_uint8_mono (v v' : Q) :
  (0 <= v)%Q -> (v <= v')%Q -> (v' < 256)%Q -> to_uint8 v <= to_uint8 v'.
Proof.
  intros H0 Hle H256.
  rewrite !to_uint8_floor by lra. apply Qfloor_resp_le. assumption.
Qed.

(** Between two neighbouring stops every channel of [ramp] is the line
    through the two stops. *)
Lemma ramp_segment (j : nat) (s0 s1 : Q * Q * Q * Q) (x : Q) :
  stops !! j = Some s0 -> stops !! S j = Some s1 ->
  (stop_x s0 <= x <= stop_x s1)%Q ->
  exists r g b,
    ramp x = Ok (r, g, b) /\
    (r == line (stop_x s0) (stop_r s0) (stop_x s1) (stop_r s1) x)%Q /\
    (g == line (stop_x s0) (stop_g s0) (stop_x s1) (stop_g s1) x)%Q /\
    (b == line (stop_x s0) (stop_b s0) (stop_x s1) (stop_b s1) x)%Q.
Proof.
  intros H0 H1 Hx.
  assert (Hj : (j < 6)%nat).
  { apply lookup_lt_Some in H1. cbn in H1. lia. }
  assert (Hnth : forall f : Q * Q * Q * Q -> Q,
             nth j (map f stops) 0%Q = f s0 /\ nth (S j) (map f stops) 0%Q = f s1).
  { intros f. split.
    - rewrite (nth_lookup_Some (map f stops) j 0%Q (f s0)); [reflexivity|].
      rewrite list_lookup_fmap, H0. reflexivity.
    - rewrite (nth_lookup_Some (map f stops) (S j) 0%Q (f s1)); [reflexivity|].
      rewrite list_lookup_fmap, H1. reflexivity. }
  assert (Hseg : forall f : Q * Q * Q * Q -> Q,
             exists v, np_interp x (map stop_x stops) (map f stops) = Ok v /\
                       (v == line (stop_x s0) (f s0) (stop_x s1) (f s1) x)%Q).
  { intros f.
    destruct (interp_segment (map f stops) j x) as (v & Hv & Hline).
    - reflexivity.
    - exact Hj.
    - cbv zeta. rewrite (proj1 (Hnth stop_x)), (proj2 (Hnth stop_x)). exact Hx.
    - exists v. split; [exact Hv|].
      cbv zeta in Hline.
      rewrite (proj1 (Hnth stop_x)), (proj2 (Hnth stop_x)) in Hline.
      rewrite (proj1 (Hnth f)), (proj2 (Hnth f)) in Hline. exact Hline. }
  destruct (Hseg stop_r) as (r & Hr & Hrl).
  destruct (Hseg stop_g) as (g & Hg & Hgl).
  destruct (Hseg stop_b) as (b & Hb & Hbl).
  exists r, g, b. split; [|auto].
  unfold ramp. cbv zeta. rewrite Hr, Hg, Hb. reflexivity.
Qed.

Ltac clear_div H :=
  match type of H with
  | (?v == ?y0 + (?y1 - ?y0) / (?x1 - ?x0) * (?x - ?x0))%Q =>
      let H' := fresh H in
      assert (H' : (v * (x1 - x0) == y0 * (x1 - x0) + (y1 - y0) * (x - x0))%Q)
        by (rewrite H; field);
      clear H
  end.

(** Between two neighbouring stops every interpolated channel is the line
    through them and stays within 0..255. *)
Lemma ramp_segment_range (j : nat) (s0 s1 : Q * Q * Q * Q) (x : Q) :
  stops !! j = Some s0 -> stops !! S j = Some s1 ->
  (stop_x s0 <= x <= stop_x s1)%Q ->
  exists r g b,
    ramp x = Ok (r, g, b) /\
    (r == line (stop_x s0) (stop_r s0) (stop_x s1) (stop_r s1) x)%Q /\
    (g == line (stop_x s0) (stop_g s0) (stop_x s1) (stop_g s1) x)%Q /\
    (b == line (stop_x s0) (stop_b s0) (stop_x s1) (stop_b s1) x)%Q /\
    fits_uint8 r /\ fits_uint8 g /\ fits_uint8 b.
Proof.
  intros H0 H1 Hx.
  destruct (ramp_segment j s0 s1 x H0 H1 Hx) as (r & g & b & Hramp & Hr & Hg & Hb).
  exists r, g, b.
  split; [exact Hramp|]. split; [exact Hr|]. split; [exact Hg|]. split; [exact Hb|].
  clear Hramp.
  destruct j as [|[|[|[|[|[|j]]]]]]; cbn in H0, H1; try discriminate;
    injection H0 as <-; injection H1 as <-;
    unfold fits_uint8, line, stop_x, stop_r, stop_g, stop_b in *; cbn [fst snd] in *;
    clear_div Hr; clear_div Hg; clear_div Hb;
    repeat split; lra.
Qed.

(** Between two neighbouring stops [colormap] gives, channel by channel,
    the integer part of the line through them. *)
Lemma colormap1_segment_line (j : nat) (s0 s1 : Q * Q * Q * Q) (x : Q) :
  stops !! j = Some s0 -> stops !! S j = Some s1 ->
  (stop_x s0 <= x <= stop_x s1)%Q ->
  colormap1 x =
  Ok (Qfloor (line (stop_x s0) (stop_r s0) (stop_x s1) (stop_r s1) x),
      Qfloor (line (stop_x s0) (stop_g s0) (stop_x s1) (stop_g s1) x),
      Qfloor (line (stop_x s0) (stop_b s0) (stop_x s1) (stop_b s1) x)).
Proof.
  intros H0 H1 Hx.
  destruct (ramp_segment_range j s0 s1 x H0 H1 Hx)
    as (r & g & b & Hramp & Hr & Hg & Hb & [Hr0 Hr1] & [Hg0 Hg1] & [Hb0 Hb1]).
  unfold colormap1. rewrite Hramp. cbn [rbind fst snd].
  rewrite !to_uint8_floor by lra.
  rewrite (Qfloor_comp _ _ Hr), (Qfloor_comp _ _ Hg), (Qfloor_comp _ _ Hb).
  reflexivity.
Qed.

(** On a segment the cast keeps the direction of every channel. *)
Lemma colormap1_segment_monotone (j : nat) (s0 s1 : Q * Q * Q * Q) (x x' : Q) :
  stops !! j = Some s0 -> stops !! S j = Some s1 ->
  (stop_x s0 <= x)%Q -> (x <= x')%Q -> (x' <= stop_x s1)%Q ->
  exists c c',
    colormap1 x = Ok c /\ colormap1 x' = Ok c' /\
    along (stop_r s0) (stop_r s1) (fst (fst c)) (fst (fst c')) /\
    along (stop_g s0) (stop_g s1) (snd (fst c)) (snd (fst c')) /\
    along (stop_b s0) (stop_b s1) (snd c) (snd c').
Proof.
  intros H0 H1 Hlo Hmid Hhi.
  destruct (ramp_segment j s0 s1 x H0 H1) as (r & g & b & Hramp & Hr & Hg & Hb).
  { split; [assumption | lra]. }
  destruct (ramp_segment j s0 s1 x' H0 H1) as (r' & g' & b' & Hramp' & Hr' & Hg' & Hb').
  { split; [lra | assumption]. }
  unfold colormap1. rewrite Hramp, Hramp'. cbn [rbind fst snd].
  eexists; eexists. split; [reflexivity|]. split; [reflexivity|]. cbn [fst snd].
  destruct j as [|[|[|[|[|[|j]]]]]]; cbn in H0, H1; try discriminate;
    injection H0 as <-; injection H1 as <-;
    unfold line, stop_x, stop_r, stop_g, stop_b in *; cbn [fst snd] in *;
    clear_div Hr; clear_div Hg; clear_div Hb;
    clear_div Hr'; clear_div Hg'; clear_div Hb';
    unfold along; repeat split; intros Hdir;
    try (exfalso; revert Hdir; clear; intros Hdir; lra);
    apply to_uint8_mono; lra.
Qed.

(** C9. The ramp is anchored at 5, 10, ..., 35 MHz; [colormap] returns the
    table's colour at every stop, in particular (0,0,180) at 5, (255,255,0)
    at 20 and (255,0,0) at 35; between two neighbouring stops every channel
    is the line through them before the cast, [colormap] returns the
    integer part of that line channel by channel, and its output moves in
    the direction of that line. *)
Theorem colormap_ramp :
  map stop_x stops = [5; 10; 15; 20; 25; 30; 35]%Q /\
  colormap1 5 = Ok (0, 0, 180) /\
  colormap1 20 = Ok (255, 255, 0) /\
  colormap1 35 = Ok (255, 0, 0) /\
  (forall s, In s stops ->
     colormap1 (stop_x s) = Ok (py_int (stop_r s), py_int (stop_g s), py_int (stop_b s))) /\
  (forall j s0 s1 x,
     stops !! j = Some s0 -> stops !! S j = Some s1 ->
     (stop_x s0 <= x <= stop_x s1)%Q ->
     exists r g b,
       ramp x = Ok (r, g, b) /\
       (r == line (stop_x s0) (stop_r s0) (stop_x s1) (stop_r s1) x)%Q /\
       (g == line (stop_x s0) (stop_g s0) (stop_x s1) (stop_g s1) x)%Q /\
       (b == line (stop_x s0) (stop_b s0) (stop_x s1) (stop_b s1) x)%Q) /\
  (forall j s0 s1 x,
     stops !! j = Some s0 -> stops !! S j = Some s1 ->
     (stop_x s0 <= x <= stop_x s1)%Q ->
     colormap1 x =
     Ok (Qfloor (line (stop_x s0) (stop_r s0) (stop_x s1) (stop_r s1) x),
         Qfloor (line (stop_x s0) (stop_g s0) (stop_x s1) (stop_g s1) x),
         Qfloor (line (stop_x s0) (stop_b s0) (stop_x s1) (stop_b s1) x))) /\
  (forall j s0 s1 x x',
     stops !! j = Some s0 -> stops !! S j = Some s1 ->
     (stop_x s0 <= x)%Q -> (x <= x')%Q -> (x' <= stop_x s1)%Q ->
     exists c c',
       colormap1 x = Ok c /\ colormap1 x' = Ok c' /\
       along (stop_r s0) (stop_r s1) (fst (fst c)) (fst (fst c')) /\
       along (stop_g s0) (stop_g s1) (snd (fst c)) (snd (fst c')) /\
       along (stop_b s0) (stop_b s1) (snd c) (snd c')).
Proof.
  split; [reflexivity|]. split; [reflexivity|]. split; [reflexivity|].
  split; [reflexivity|]. split; [|split; [|split]].
  - intros s Hs. cbn in Hs.
    repeat (destruct Hs as [<- | Hs]; [reflexivity|]). destruct Hs.
  - exact ramp_segment.
  - exact colormap1_segment_line.
  - exact colormap1_segment_monotone.
Qed.

(** ** Geodesic distance *)

Section Distance.

Local Open Scope R_scope.

Lemma fmod_range (x m : R) : 0 < m -> 0 <= fmod x m < m.
Proof.
  intros Hm. unfold fmod.
  destruct (base_Int_part (x / m)) as [Hlo Hhi].
  set (q := IZR (Int_part (x / m))) in *.
  assert (Hx : x = x / m * m) by (field; lra).
  split.
  - assert (m * q <= x / m * m) by nra. lra.
  - assert (x / m * m < m * q + m) by nra. lra.
Qed.

(** [fmod] removes a whole number of periods. *)
Lemma fmod_shift (x m : R) : exists n : Z, fmod x m = x + IZR n * m.
Proof.
  exists (- Int_part (x / m))%Z. unfold fmod. rewrite opp_IZR. ring.
Qed.

Lemma cos_period_Z (x : R) (n : Z) : cos (x + 2 * IZR n * PI) = cos x.
Proof.
  destruct (Z_le_gt_dec 0 n) as [Hn | Hn].
  - rewrite <- (Z2Nat.id n Hn), <- INR_IZR_INZ. apply cos_period.
  - rewrite <- (cos_period (x + 2 * IZR n * PI) (Z.to_nat (- n))).
    rewrite INR_IZR_INZ, Z2Nat.id by lia. rewrite opp_IZR.
    f_equal. ring.
Qed.

Lemma sin2_half (y : R) : sin (y / 2) ^ 2 = (1 - cos y) / 2.
Proof.
  replace y with (2 * (y / 2)) at 2 by field.
  rewrite cos_2a_sin. field.
Qed.

(** The haversine term sees the normalised difference and the plain one
    alike. *)
Lemma hav_dlon (lon1 lon2 : R) :
  sin (dlon_of lon1 lon2 / 2) ^ 2 = (1 - cos (lon2 - lon1)) / 2.
Proof.
  rewrite sin2_half. unfold dlon_of.
  destruct (fmod_shift (lon2 - lon1 + PI) (2 * PI)) as [n ->].
  replace (lon2 - lon1 + PI + IZR n * (2 * PI) - PI)
    with (lon2 - lon1 + 2 * IZR n * PI) by ring.
  rewrite cos_period_Z. reflexivity.
Qed.

Lemma dlon_range (lon1 lon2 : R) : - PI <= dlon_of lon1 lon2 < PI.
Proof.
  unfold dlon_of.
  pose proof PI_RGT_0 as Hpi.
  destruct (fmod_range (lon2 - lon1 + PI) (2 * PI)) as [Hlo Hhi]; lra.
Qed.

(** The argument of the square root, in closed form. *)
Lemma haversine_rad_eq (lon1 lat1 lon2 lat2 : R) :
  haversine_rad lon1 lat1 lon2 lat2 =
  2 * asin (sqrt ((1 - cos (lat2 - lat1)) / 2
                  + cos lat1 * cos lat2 * ((1 - cos (lon2 - lon1)) / 2))).
Proof.
  unfold haversine_rad. cbv zeta. rewrite hav_dlon, sin2_half. reflexivity.
Qed.

Lemma haversine_rad_sym (lon1 lat1 lon2 lat2 : R) :
  haversine_rad lon1 lat1 lon2 lat2 = haversine_rad lon2 lat2 lon1 lat1.
Proof.
  rewrite !haversine_rad_eq.
  replace (lat1 - lat2) with (- (lat2 - lat1)) by ring.
  replace (lon1 - lon2) with (- (lon2 - lon1)) by ring.
  rewrite !cos_neg. do 3 f_equal. ring.
Qed.

Lemma haversine_rad_same (lon lat : R) : haversine_rad lon lat lon lat = 0.
Proof.
  rewrite haversine_rad_eq.
  replace (lat - lat) with 0 by ring. replace (lon - lon) with 0 by ring.
  rewrite cos_0.
  replace ((1 - 1) / 2 + cos lat * cos lat * ((1 - 1) / 2)) with 0 by field.
  rewrite sqrt_0, asin_0. ring.
Qed.

Lemma haversine_rad_period (lon1 lat1 lon2 lat2 : R) (n : Z) :
  haversine_rad lon1 lat1 (lon2 + 2 * IZR n * PI) lat2 =
  haversine_rad lon1 lat1 lon2 lat2.
Proof.
  rewrite !haversine_rad_eq.
  replace (lon2 + 2 * IZR n * PI - lon1) with (lon2 - lon1 + 2 * IZR n * PI) by ring.
  rewrite cos_period_Z. reflexivity.
Qed.

Lemma haversine_rad_antipodal (lon lat : R) :
  haversine_rad lon lat (lon + PI) (- lat) = PI.
Proof.
  rewrite haversine_rad_eq.
  replace (lon + PI - lon) with PI by ring.
  replace (- lat - lat) with (- (2 * lat)) by ring.
  rewrite !cos_neg, cos_PI, cos_2a_sin.
  pose proof (sin2_cos2 lat) as H. unfold Rsqr in H.
  replace ((1 - (1 - 2 * sin lat * sin lat)) / 2 + cos lat * cos lat * ((1 - -1) / 2))
    with (sin lat * sin lat + cos lat * cos lat) by field.
  rewrite H, sqrt_1, asin_1. field.
Qed.

(** C6, amended. [haversine_rad] is symmetric, gives 0 from a point to
    itself and PI between antipodal points; the longitude difference is
    normalised into [[-PI, PI]], and the distance does not change when a
    longitude is moved by whole turns. *)
Theorem haversine_rad_properties (lon1 lat1 lon2 lat2 : R) :
  haversine_rad lon1 lat1 lon2 lat2 = haversine_rad lon2 lat2 lon1 lat1 /\
  haversine_rad lon1 lat1 lon1 lat1 = 0 /\
  (forall n : Z, haversine_rad lon1 lat1 (lon1 + PI + 2 * IZR n * PI) (- lat1) = PI) /\
  - PI <= dlon_of lon1 lon2 <= PI /\
  (forall n : Z,
     haversine_rad lon1 lat1 (lon2 + 2 * IZR n * PI) lat2 =
     haversine_rad lon1 lat1 lon2 lat2).
Proof.
  split; [apply haversine_rad_sym|].
  split; [apply haversine_rad_same|].
  split; [|split; [|apply haversine_rad_period]].
  - intros n. rewrite haversine_rad_period. apply haversine_rad_antipodal.
  - pose proof (dlon_range lon1 lon2). lra.
Qed.

(** C6 as stated fails on the interval: half a turn of longitude is
    normalised to -PI, which (-PI, PI] leaves out. *)
Lemma dlon_half_turn_is_minus_PI :
  dlon_of 0 PI = - PI /\ ~ (- PI < dlon_of 0 PI <= PI).
Proof.
  assert (H : dlon_of 0 PI = - PI).
  { unfold dlon_of, fmod.
    pose proof PI_RGT_0 as Hpi.
    replace ((PI - 0 + PI) / (2 * PI)) with 1 by (field; lra).
    rewrite <- (Int_part_spec 1 1) by (simpl; lra).
    simpl. ring. }
  split; [exact H|]. rewrite H. lra.
Qed.

End Distance.

(** ** Field interpolator *)

Section Field.

Local Open Scope R_scope.

Lemma clip_range (lo hi x : R) : lo <= hi -> lo <= clip lo hi x <= hi.
Proof.
  intros H. unfold clip. split.
  - apply Rmin_glb; [apply Rmax_r | exact H].
  - apply Rmin_r.
Qed.

Lemma clip_above (lo hi x : R) : lo <= hi -> hi <= x -> clip lo hi x = hi.
Proof.
  intros H Hx. unfold clip. rewrite Rmax_left by lra. apply Rmin_right. exact Hx.
Qed.

Lemma ln_monotone (x y : R) : 0 < x -> x <= y -> ln x <= ln y.
Proof.
  intros Hx [Hlt | ->]; [|apply Rle_refl].
  left. apply ln_increasing; assumption.
Qed.

Lemma log_values_range (pts : list (Q * Q * Q * Q)) :
  Forall (fun v => ln 5 <= v <= ln 35) (log_values pts).
Proof.
  unfold log_values. apply Forall_map. apply Forall_forall. intros pt _.
  destruct (clip_range 5 35 (Q2R (snd (fst pt)))) as [Hlo Hhi]; [lra|].
  split; apply ln_monotone; lra.
Qed.

Lemma clip_field_range (out : list (list R)) :
  Forall (Forall in_band) (clip_field out).
Proof.
  unfold clip_field. apply Forall_map. apply Forall_forall. intros row _.
  apply Forall_map. apply Forall_forall. intros v _.
  apply clip_range. lra.
Qed.

End Field.

Lemma linspace_Ok (start stop : R) (n : Z) :
  0 <= n -> exists l, linspace start stop n = Ok l /\ (0 < n -> l <> []).
Proof.
  intros Hn. unfold linspace.
  destruct (n <? 0) eqn:E; [apply Z.ltb_lt in E; lia|].
  destruct (n =? 1); eexists; (split; [reflexivity|]); intros Hpos; [discriminate|].
  destruct (Z.to_nat n) eqn:En; [lia|]. discriminate.
Qed.

Lemma py_range_first (stop : Z) :
  0 < stop -> exists l, py_range stop 32 = 0%nat :: l.
Proof.
  intros H. unfold py_range.
  assert (Hq : 1 <= (stop + 32 - 1) / 32).
  { apply Z.div_le_lower_bound; lia. }
  destruct (Z.to_nat ((stop + 32 - 1) / 32)) eqn:E; [lia|].
  eexists. reflexivity.
Qed.

(** With an observation, the first band stops at [None*lonsr]. *)
Lemma interpolate_raises_with_observations (a : args) (now : R)
      (pts : list (Q * Q * Q * Q)) :
  pts <> [] -> 0 < grid_h a -> 0 <= grid_w a ->
  interpolate a now pts = Raise TypeError.
Proof.
  intros Hpts Hh Hw. unfold interpolate. cbv zeta.
  destruct (linspace_Ok (-180) 180 (grid_w a) Hw) as (xs & -> & _).
  destruct (linspace_Ok 90 (-90) (grid_h a)) as (ys & -> & _); [lia|].
  destruct (py_range_first (grid_h a) Hh) as (l & ->).
  destruct pts as [|pt pts]; [congruence|]. reflexivity.
Qed.

(** Without observations the sums are taken on [object] arrays, and the
    first cell stops at [np.exp]. *)
Lemma interpolate_raises_without_observations (a : args) (now : R) :
  0 < grid_h a -> 0 < grid_w a ->
  interpolate a now [] = Raise TypeError.
Proof.
  intros Hh Hw. unfold interpolate. cbv zeta.
  destruct (linspace_Ok (-180) 180 (grid_w a)) as (xs & -> & Hxs); [lia|].
  destruct (linspace_Ok 90 (-90) (grid_h a)) as (ys & -> & Hys); [lia|].
  destruct (py_range_first (grid_h a) Hh) as (l & ->).
  destruct xs as [|glon xs]; [exfalso; apply Hxs; [lia | reflexivity]|].
  destruct ys as [|glat ys]; [exfalso; apply Hys; [lia | reflexivity]|].
  reflexivity.
Qed.

(** [np.argpartition] with [kth = k - 1] refuses a cell that has
    observations, but fewer than [k]. *)
Lemma argpartition_too_few (d : list R) (k : Z) :
  d <> [] -> Z.of_nat (length d) < k -> argpartition d (k - 1) = Raise ValueError.
Proof.
  intros Hd Hk. unfold argpartition.
  assert (Hn : 0 < Z.of_nat (length d)) by (destruct d; [congruence | cbn; lia]).
  replace (k - 1 <? 0) with false by (symmetry; apply Z.ltb_ge; lia).
  replace (Z.of_nat (length d) =? 0) with false by (symmetry; apply Z.eqb_neq; lia).
  replace (Z.of_nat (length d) <=? k - 1) with true by (symmetry; apply Z.leb_le; lia).
  rewrite orb_true_r. reflexivity.
Qed.

(** C1 at the failing input: one fresh observation, the default grid and
    [k = 16].  The interpolation raises, and no field is produced. *)
Theorem interpolate_one_observation_raises :
  interpolate default_args 0 [(10, 20, 12, 1)%Q] = Raise TypeError.
Proof.
  apply interpolate_raises_with_observations; [discriminate | reflexivity | discriminate].
Qed.

(** C5 at the failing input: an observation of 1000 MHz on the default
    grid.  Line 140 clamps it, so that the logarithm of 35 enters [vals];
    the first band then raises at line 154, and the run hands over no
    field at all, hence no field with every value in [5,35]. *)
Theorem interpolate_1000MHz_yields_no_field :
  log_values [(10, 20, 1000, 1)%Q] = [ln 35] /\
  interpolate default_args 0 [(10, 20, 1000, 1)%Q] = Raise TypeError /\
  ~ yields_field_within default_args 0 [(10, 20, 1000, 1)%Q].
Proof.
  assert (H : interpolate default_args 0 [(10, 20, 1000, 1)%Q] = Raise TypeError).
  { apply interpolate_raises_with_observations;
      [discriminate | reflexivity | discriminate]. }
  split; [|split; [exact H|]].
  - unfold log_values. cbn [map fst snd]. f_equal. f_equal.
    apply clip_above; [lra|]. unfold Q2R. cbn. lra.
  - intros (field & Hfield & _). rewrite H in Hfield. discriminate.
Qed.

(** ** Bitmap persistence *)




(** Lines 100 to 103 on their own would not keep a reader from a part of
    a file: when the flush of the first file fails as the file object is
    dropped, no exception is raised, and the first rename puts the
    truncated bitmap under the final name. *)
Lemma write_files_silent_truncation :
  let ft := mk_faults (FlushFails 1) WriteOk ReplaceOk ReplaceOk in
  let run := write_files (fun b => b) ft [66; 77] "map.bmp" (mk_world ∅ []) in
  fst run = Ok tt /\ files (snd run) !! "map.bmp" = Some [66].
Proof.
  cbv zeta. unfold write_files, io_bind, write_file, os_replace, commit.
  cbn [files seen f_tmp f_ztmp f_mv f_mvz fst snd firstn].
  repeat (simplify_map_eq; cbn [files seen fst snd]).
  split; [reflexivity|]. simplify_map_eq. reflexivity.
Qed.


(** * Further properties of the code *)

(** ** Sample ingestion *)

Lemma remove_Z_app (s t : string) : remove_Z (s +:+ t) = remove_Z s +:+ remove_Z t.
Proof.
  induction s as [|c s IH]; [reflexivity|].
  change (String c s +:+ t) with (String c (s +:+ t)).
  cbn [remove_Z]. rewrite IH. destruct (Ascii.eqb c "Z"); reflexivity.
Qed.

Lemma remove_Z_suffix (s : string) : remove_Z (s +:+ "Z") = remove_Z s.
Proof.
  rewrite remove_Z_app. change (remove_Z "Z") with ""%string.
  induction (remove_Z s) as [|c t IH]; [reflexivity|].
  change (String c t +:+ "") with (String c (t +:+ "")). rewrite IH. reflexivity.
Qed.

Section IngestionFurther.

Variable float_of_str : string -> option Q.
Variable fromisoformat : string -> option datetime.
Variable local_offset : Z -> Z.

Local Abbreviation parse_time' := (parse_time float_of_str fromisoformat local_offset).
Local Abbreviation coords' := (coords float_of_str).
Local Abbreviation confidence' := (confidence float_of_str).
Local Abbreviation ingest_record' := (ingest_record float_of_str fromisoformat local_offset).
Local Abbreviation ingest' := (ingest float_of_str fromisoformat local_offset).

Lemma coords_malformed (r : list (string * pyval)) :
  malformed r -> caught (coords' r) = None.
Proof.
  unfold coords, dict_get. cbv zeta.
  intros [Hm | [Hs | [(v & Hs & Hv) | (d & Hs & Hd)]]].
  - destruct (subscript _ "longitude") as [lonv|]; [|reflexivity]. cbn [rbind].
    destruct (py_float _ lonv); [|reflexivity]. cbn [rbind].
    destruct (subscript _ "latitude") as [latv|]; [|reflexivity]. cbn [rbind].
    destruct (py_float _ latv); [|reflexivity]. cbn [rbind].
    unfold subscript at 1. rewrite Hm. reflexivity.
  - rewrite Hs. reflexivity.
  - rewrite Hs. destruct v; try reflexivity. exfalso. eapply Hv. reflexivity.
  - rewrite Hs. cbn [subscript]. destruct Hd as [Hd | Hd].
    + rewrite Hd. reflexivity.
    + destruct (assoc "longitude" d); [|reflexivity]. cbn [rbind].
      destruct (py_float _ _); [|reflexivity]. cbn [rbind].
      rewrite Hd. reflexivity.
Qed.

(** A malformed record is skipped without an exception, whatever its time
    and confidence fields hold. *)
Theorem malformed_record_skipped (now : Q) (r : list (string * pyval)) :
  malformed r -> ingest_record' now r = Ok None.
Proof.
  intros H. unfold ingest_record. rewrite (coords_malformed r H). reflexivity.
Qed.

(** The trailing "Z" of a timestamp is dropped before parsing: a string
    gives the same result with and without it. *)
Theorem parse_time_Z_suffix_ignored (s : string) :
  parse_time float_of_str fromisoformat local_offset (PStr (s +:+ "Z"))
  = parse_time float_of_str fromisoformat local_offset (PStr s) /\
  parse_time float_of_str fromisoformat local_offset (PStr ("Z" +:+ s))
  = parse_time float_of_str fromisoformat local_offset (PStr s).
Proof.
  split.
  - cbn [parse_time]. rewrite remove_Z_suffix. reflexivity.
  - reflexivity.
Qed.

(** What [ingest] returns holds at most one point per record, in the order
    of the feed, and each point comes from a record whose coordinates
    convert, whose time is not more than 3600 seconds before [now], and
    whose confidence converts. *)
Theorem ingest_retains_fresh (now : Q) (raw : list (list (string * pyval)))
        (pts : list (Q * Q * Q * Q)) :
  ingest' now raw = Ok pts ->
  (length pts <= length raw)%nat /\
  Forall (fun pt =>
            exists r t,
              In r raw /\
              caught (coords' r) = Some (fst pt) /\
              parse_time' (dict_get r "time" PNone) = Ok t /\
              (now - t <= 3600)%Q /\
              confidence' r = Ok (snd pt)) pts.
Proof.
  revert pts. induction raw as [|r raw IH]; intros pts H.
  - cbn in H. injection H as <-. split; [reflexivity | constructor].
  - cbn [ingest] in H.
    apply rbind_Ok in H as (o & Ho & H).
    apply rbind_Ok in H as (rest & Hrest & H).
    destruct (IH rest Hrest) as [Hlen Hall].
    assert (Hall' : Forall (fun pt =>
              exists r0 t,
                In r0 (r :: raw) /\
                caught (coords' r0) = Some (fst pt) /\
                parse_time' (dict_get r0 "time" PNone) = Ok t /\
                (now - t <= 3600)%Q /\
                confidence' r0 = Ok (snd pt)) rest).
    { eapply Forall_impl; [exact Hall|].
      intros pt (r0 & t & Hin & Hrest0). exists r0, t.
      split; [right; exact Hin | exact Hrest0]. }
    destruct o as [pt|]; injection H as <-.
    + split; [cbn; lia|]. constructor; [|exact Hall'].
      unfold ingest_record in Ho.
      destruct (caught (coords' r)) as [[[lon lat] muf]|] eqn:Hc; [|discriminate].
      apply rbind_Ok in Ho as (t & Ht & Ho).
      destruct (stale now t) eqn:Hs; [discriminate|].
      apply rbind_Ok in Ho as (conf & Hconf & Ho).
      injection Ho as <-. exists r, t.
      cbn [fst snd].
      split; [left; reflexivity|]. split; [exact Hc|].
      split; [exact Ht|]. split; [|exact Hconf].
      apply Qltb_ge in Hs. exact Hs.
    + split; [cbn; lia | exact Hall'].
Qed.

Lemma ingest_raises_at (now : Q) (raw : list (list (string * pyval)))
      (r : list (string * pyval)) (e : exn) :
  In r raw -> ingest_record' now r = Raise e -> exists e', ingest' now raw = Raise e'.
Proof.
  induction raw as [|r0 raw IH]; intros Hin Hr; [destruct Hin|].
  cbn [ingest]. destruct Hin as [-> | Hin].
  - rewrite Hr. exists e. reflexivity.
  - destruct (ingest_record' now r0) as [o|e0]; [|exists e0; reflexivity].
    cbn [rbind]. destruct (IH Hin Hr) as [e' ->]. exists e'. reflexivity.
Qed.

(** The conversion of the confidence is outside the [try]: one record with
    coordinates, a fresh time and a confidence of JSON [null] makes the
    whole ingestion raise, whatever else the feed holds. *)
Theorem ingest_aborts_on_null_confidence (now : Q)
        (raw : list (list (string * pyval))) (r : list (string * pyval))
        (c : Q * Q * Q) (t : Q) :
  In r raw ->
  caught (coords' r) = Some c ->
  parse_time' (dict_get r "time" PNone) = Ok t ->
  (now - t <= 3600)%Q ->
  assoc "confidence" r = Some PNone ->
  ingest_record' now r = Raise TypeError /\
  exists e, ingest' now raw = Raise e.
Proof.
  intros Hin Hc Ht Hage Hconf.
  assert (Hr : ingest_record' now r = Raise TypeError).
  { unfold ingest_record. rewrite Hc. destruct c as [[lon lat] muf].
    rewrite Ht. cbn [rbind].
    apply Qltb_ge in Hage. unfold stale. rewrite Hage.
    unfold confidence, dict_get. rewrite Hconf. reflexivity. }
  split; [exact Hr|]. exact (ingest_raises_at now raw r TypeError Hin Hr).
Qed.

End IngestionFurther.

Lemma malformed_record_skipped_witness :
  let r := [("station", PDict [("longitude", PFloat 10)]); ("mufd", PFloat 12);
            ("confidence", PNone)]%string in
  malformed r /\ ingest_record no_float iso_basic (utc_plus 0) 0 r = Ok None.
Proof.
  intros r.
  assert (H : malformed r).
  { right. right. right. eexists. split; [reflexivity|]. right. reflexivity. }
  split; [exact H|].
  exact (malformed_record_skipped no_float iso_basic (utc_plus 0) 0 r H).
Defined.

Lemma ingest_retains_fresh_witness :
  let raw := [ report [("time", PInt 1000)]%string [("confidence", PInt 50)]%string;
               report [("time", PInt 10)]%string [];
               [("mufd", PFloat 9)]%string ] in
  ingest no_float iso_basic (utc_plus 0) 4000 raw = Ok [(10, 20, 12, 50 / 100)%Q] /\
  (length [(10, 20, 12, 50 / 100)%Q] <= length raw)%nat.
Proof.
  intros raw. split; [reflexivity|].
  exact (proj1 (ingest_retains_fresh no_float iso_basic (utc_plus 0) 4000 raw
                  [(10, 20, 12, 50 / 100)%Q] eq_refl)).
Defined.

Lemma ingest_aborts_on_null_confidence_witness :
  let bad := report [("time", PInt 1000)]%string [("confidence", PNone)]%string in
  let raw := [ report [("time", PInt 1000)]%string []; bad ] in
  In bad raw /\
  caught (coords no_float bad) = Some (10, 20, 12)%Q /\
  parse_time no_float iso_basic (utc_plus 0) (dict_get bad "time" PNone) = Ok 1000%Q /\
  (4000 - 1000 <= 3600)%Q /\
  assoc "confidence" bad = Some PNone /\
  ingest_record no_float iso_basic (utc_plus 0) 4000 bad = Raise TypeError.
Proof.
  intros bad raw.
  assert (Hin : In bad raw) by (right; left; reflexivity).
  assert (Hage : (4000 - 1000 <= 3600)%Q) by discriminate.
  repeat (split; [first [exact Hin | exact Hage | reflexivity]|]).
  exact (proj1 (ingest_aborts_on_null_confidence no_float iso_basic (utc_plus 0) 4000
                  raw bad (10, 20, 12)%Q 1000 Hin eq_refl eq_refl Hage eq_refl)).
Defined.

(** ** Grid coordinates *)

Lemma py_int_ceiling (v : Q) : (v <= 0)%Q -> py_int v = Qceiling v.
Proof.
  destruct v as [n d]. unfold Qle, py_int, Qceiling, Qfloor, Qopp. cbn [Qnum Qden].
  intros H.
  rewrite <- (Z.opp_involutive n) at 1.
  rewrite Z.quot_opp_l by lia. rewrite Z.quot_div_nonneg by lia. reflexivity.
Qed.

Lemma py_int_mono (v v' : Q) : (v <= v')%Q -> py_int v <= py_int v'.
Proof.
  intros H. destruct (Qlt_le_dec v 0) as [Hv | Hv]; destruct (Qlt_le_dec v' 0) as [Hv' | Hv'].
  - rewrite !py_int_ceiling by lra. apply Qceiling_resp_le. exact H.
  - rewrite (py_int_ceiling v) by lra. rewrite (py_int_floor v') by exact Hv'.
    apply Z.le_trans with 0.
    + change 0 with (Qceiling 0). apply Qceiling_resp_le. lra.
    + change 0 with (Qfloor 0). apply Qfloor_resp_le. exact Hv'.
  - exfalso. lra.
  - rewrite !py_int_floor by lra. apply Qfloor_resp_le. exact H.
Qed.

Lemma scaled_le (x y : Q) (c : positive) (n : Z) :
  (x <= y)%Q -> 0 <= n ->
  (x / inject_Z (Zpos c) * inject_Z n <= y / inject_Z (Zpos c) * inject_Z n)%Q.
Proof.
  intros Hxy Hn.
  apply Qmult_le_compat_r; [|rewrite Zle_Qle in Hn; exact Hn].
  unfold Qdiv. apply Qmult_le_compat_r; [exact Hxy|].
  apply Qinv_le_0_compat. discriminate.
Qed.

(** The pixel column does not decrease when the longitude grows, and the
    pixel row does not decrease when the latitude falls. *)
Theorem lonlat_to_xy_monotone (lon lon' lat lat' : Q) (w h : Z) :
  1 <= w -> 1 <= h -> (lon <= lon')%Q -> (lat <= lat')%Q ->
  fst (lonlat_to_xy lon lat w h) <= fst (lonlat_to_xy lon' lat' w h) /\
  snd (lonlat_to_xy lon' lat' w h) <= snd (lonlat_to_xy lon lat w h).
Proof.
  intros Hw Hh Hlon Hlat. unfold lonlat_to_xy. cbn [fst snd].
  assert (Hx : py_int ((lon + 180) / 360 * inject_Z (w - 1))
               <= py_int ((lon' + 180) / 360 * inject_Z (w - 1))).
  { apply py_int_mono. apply (scaled_le _ _ 360); [lra | lia]. }
  assert (Hy : py_int ((90 - lat') / 180 * inject_Z (h - 1))
               <= py_int ((90 - lat) / 180 * inject_Z (h - 1))).
  { apply py_int_mono. apply (scaled_le _ _ 180); [lra | lia]. }
  split; lia.
Qed.

Lemma lonlat_to_xy_monotone_witness :
  1 <= 720 /\ 1 <= 360 /\ (-75 <= 30)%Q /\ (-10 <= 45)%Q /\
  fst (lonlat_to_xy (-75) (-10) 720 360) <= fst (lonlat_to_xy 30 45 720 360).
Proof.
  assert (Hw : 1 <= 720) by lia.
  assert (Hh : 1 <= 360) by lia.
  assert (Hlon : (-75 <= 30)%Q) by discriminate.
  assert (Hlat : (-10 <= 45)%Q) by discriminate.
  repeat (split; [assumption|]).
  exact (proj1 (lonlat_to_xy_monotone (-75) 30 (-10) 45 720 360 Hw Hh Hlon Hlat)).
Defined.

(** Coordinates outside the map are clamped to its border: every longitude
    from 180 up lands in the last column and every longitude down from -180
    in column 0; every latitude from 90 up lands in row 0 and every latitude
    down from -90 in the last row. *)
Theorem lonlat_to_xy_clamps (lon lat : Q) (w h : Z) :
  1 <= w -> 1 <= h ->
  ((180 <= lon)%Q -> fst (lonlat_to_xy lon lat w h) = w - 1) /\
  ((lon <= -180)%Q -> fst (lonlat_to_xy lon lat w h) = 0) /\
  ((90 <= lat)%Q -> snd (lonlat_to_xy lon lat w h) = 0) /\
  ((lat <= -90)%Q -> snd (lonlat_to_xy lon lat w h) = h - 1).
Proof.
  intros Hw Hh. unfold lonlat_to_xy. cbn [fst snd].
  split; [|split; [|split]]; intros H.
  - assert (Hx : w - 1 <= py_int ((lon + 180) / 360 * inject_Z (w - 1))).
    { rewrite <- (py_int_scaled 360 (w - 1)) at 1.
      apply py_int_mono. apply (scaled_le _ _ 360); [|lia].
      change (inject_Z 360) with 360%Q. lra. }
    lia.
  - assert (Hx : py_int ((lon + 180) / 360 * inject_Z (w - 1)) <= 0).
    { rewrite <- (py_int_zero 360 (w - 1)).
      apply py_int_mono. apply (scaled_le _ _ 360); [lra | lia]. }
    lia.
  - assert (Hy : py_int ((90 - lat) / 180 * inject_Z (h - 1)) <= 0).
    { rewrite <- (py_int_zero 180 (h - 1)).
      apply py_int_mono. apply (scaled_le _ _ 180); [lra | lia]. }
    lia.
  - assert (Hy : h - 1 <= py_int ((90 - lat) / 180 * inject_Z (h - 1))).
    { rewrite <- (py_int_scaled 180 (h - 1)) at 1.
      apply py_int_mono. apply (scaled_le _ _ 180); [|lia].
      change (inject_Z 180) with 180%Q. lra. }
    lia.
Qed.

Lemma lonlat_to_xy_clamps_witness :
  1 <= 720 /\ 1 <= 360 /\ lonlat_to_xy 200 (-95) 720 360 = (719, 359).
Proof.
  assert (Hw : 1 <= 720) by lia.
  assert (Hh : 1 <= 360) by lia.
  repeat (split; [assumption|]).
  destruct (lonlat_to_xy_clamps 200 (-95) 720 360 Hw Hh) as (Hx & _ & _ & Hy).
  rewrite (surjective_pairing (lonlat_to_xy 200 (-95) 720 360)).
  rewrite Hx by discriminate. rewrite Hy by discriminate. reflexivity.
Defined.

(** ** Colour ramp *)

Lemma rmapM_Forall2 {A B} (f : A -> result B) (P : A -> B -> Prop) (l : list A) :
  (forall x, In x l -> exists b, f x = Ok b /\ P x b) ->
  exists bs, rmapM f l = Ok bs /\ Forall2 P l bs.
Proof.
  induction l as [|x l IH]; intros H.
  - exists []. split; [reflexivity | constructor].
  - destruct (H x) as (b & Hb & HP); [left; reflexivity|].
    destruct IH as (bs & Hbs & HF); [intros y Hy; apply H; right; exact Hy|].
    exists (b :: bs). cbn [rmapM]. rewrite Hb, Hbs.
    split; [reflexivity | constructor; assumption].
Qed.

Ltac end_of_ramp x :=
  unfold colormap1, ramp, np_interp;
  cbn [map stops stop_x stop_r stop_g stop_b fst snd combine interp_from];
  split_Qltb x;
  try (exfalso; match goal with H : ~ (_ == _)%Q |- _ =>
         apply H; apply Qle_antisym; lra end);
  reflexivity.

Lemma colormap1_low (x : Q) : (x <= 5)%Q -> colormap1 x = Ok (0, 0, 180).
Proof. intros H. end_of_ramp x. Qed.

Lemma colormap1_high (x : Q) : (35 <= x)%Q -> colormap1 x = Ok (255, 0, 0).
Proof. intros H. end_of_ramp x. Qed.

(** Below the first stop and above the last one the ramp does not
    extrapolate: every value up to 5 MHz gets the colour of 5 MHz and every
    value from 35 MHz on the colour of 35 MHz. *)
Theorem colormap1_saturates (x : Q) :
  ((x <= 5)%Q -> colormap1 x = Ok (0, 0, 180)) /\
  ((35 <= x)%Q -> colormap1 x = Ok (255, 0, 0)).
Proof.
  split; [apply colormap1_low | apply colormap1_high].
Qed.

Ltac ramp_end x :=
  unfold ramp, np_interp;
  cbn [map stops stop_x stop_r stop_g stop_b fst snd combine interp_from];
  split_Qltb x;
  try (exfalso; match goal with H : ~ (_ == _)%Q |- _ =>
         apply H; apply Qle_antisym; lra end);
  reflexivity.

Lemma ramp_low (x : Q) : (x <= 5)%Q -> ramp x = Ok (0, 0, 180)%Q.
Proof. intros H. ramp_end x. Qed.

Lemma ramp_high (x : Q) : (35 <= x)%Q -> ramp x = Ok (255, 0, 0)%Q.
Proof. intros H. ramp_end x. Qed.

Lemma unwrapped_of_ramp (x r g b : Q) :
  ramp x = Ok (r, g, b) -> fits_uint8 r -> fits_uint8 g -> fits_uint8 b ->
  exists c, colormap1 x = Ok c /\ unwrapped x c.
Proof.
  intros Hramp Hr Hg Hb. exists (Qfloor r, Qfloor g, Qfloor b). split.
  - unfold colormap1. rewrite Hramp. cbn [rbind fst snd].
    unfold fits_uint8 in *. rewrite !to_uint8_floor by lra. reflexivity.
  - exists r, g, b. auto.
Qed.

Lemma unwrapped_on_segment (j : nat) (s0 s1 : Q * Q * Q * Q) (x : Q) :
  stops !! j = Some s0 -> stops !! S j = Some s1 ->
  (stop_x s0 <= x <= stop_x s1)%Q ->
  exists c, colormap1 x = Ok c /\ unwrapped x c.
Proof.
  intros H0 H1 Hx.
  destruct (ramp_segment_range j s0 s1 x H0 H1 Hx)
    as (r & g & b & Hramp & _ & _ & _ & Hr & Hg & Hb).
  exact (unwrapped_of_ramp x r g b Hramp Hr Hg Hb).
Qed.

Lemma colormap1_unwrapped (x : Q) : exists c, colormap1 x = Ok c /\ unwrapped x c.
Proof.
  destruct (Qlt_le_dec x 5) as [H5|H5].
  { apply (unwrapped_of_ramp x 0 0 180); [apply ramp_low; lra | | |];
      unfold fits_uint8; lra. }
  destruct (Qlt_le_dec x 10) as [H10|H10].
  { apply (unwrapped_on_segment 0 _ _ x eq_refl eq_refl). cbn. lra. }
  destruct (Qlt_le_dec x 15) as [H15|H15].
  { apply (unwrapped_on_segment 1 _ _ x eq_refl eq_refl). cbn. lra. }
  destruct (Qlt_le_dec x 20) as [H20|H20].
  { apply (unwrapped_on_segment 2 _ _ x eq_refl eq_refl). cbn. lra. }
  destruct (Qlt_le_dec x 25) as [H25|H25].
  { apply (unwrapped_on_segment 3 _ _ x eq_refl eq_refl). cbn. lra. }
  destruct (Qlt_le_dec x 30) as [H30|H30].
  { apply (unwrapped_on_segment 4 _ _ x eq_refl eq_refl). cbn. lra. }
  destruct (Qlt_le_dec x 35) as [H35|H35].
  { apply (unwrapped_on_segment 5 _ _ x eq_refl eq_refl). cbn. lra. }
  apply (unwrapped_of_ramp x 255 0 0); [apply ramp_high; lra | | |];
    unfold fits_uint8; lra.
Qed.

(** The cast of [colormap] never wraps: on every array of samples, below,
    on and above the ramp, the three interpolated values of every sample
    lie in 0..255, and the pixel that [colormap] returns for the sample
    holds their integer parts.  The output has the shape of the input. *)
Theorem colormap_never_wraps (mhz : list (list Q)) :
  exists out, colormap mhz = Ok out /\ Forall2 (Forall2 unwrapped) mhz out.
Proof.
  unfold colormap. apply rmapM_Forall2. intros row _.
  apply rmapM_Forall2. intros x _. apply colormap1_unwrapped.
Qed.

(** ** Geodesic distance and solar illumination *)

Section DistanceFurther.

Local Open Scope R_scope.

(** The argument of the square root is a number of [[0, 1]], for all real
    arguments. *)
Lemma haversine_arg_range (lon1 lat1 lon2 lat2 : R) :
  0 <= (1 - cos (lat2 - lat1)) / 2
       + cos lat1 * cos lat2 * ((1 - cos (lon2 - lon1)) / 2) <= 1.
Proof.
  rewrite cos_minus.
  pose proof (sin2_cos2 lat1) as H1. pose proof (sin2_cos2 lat2) as H2.
  unfold Rsqr in H1, H2.
  pose proof (COS_bound (lon2 - lon1)) as [Hlo Hhi].
  set (c1 := cos lat1) in *. set (s1 := sin lat1) in *.
  set (c2 := cos lat2) in *. set (s2 := sin lat2) in *.
  set (cd := cos (lon2 - lon1)) in *.
  assert (Hsq : 0 <= c2 * c2 * (1 - cd * cd)).
  { apply Rmult_le_pos; [apply Rle_0_sqr|]. nra. }
  split.
  - pose proof (Rle_0_sqr (c1 - c2 * cd)) as Ha.
    pose proof (Rle_0_sqr (s1 - s2)) as Hb.
    unfold Rsqr in Ha, Hb. nra.
  - pose proof (Rle_0_sqr (c1 + c2 * cd)) as Ha.
    pose proof (Rle_0_sqr (s1 + s2)) as Hb.
    unfold Rsqr in Ha, Hb. nra.
Qed.

Lemma asin_nonneg (x : R) : 0 <= x <= 1 -> 0 <= asin x.
Proof.
  intros Hx. destruct (Rle_or_lt 0 (asin x)) as [H | H]; [exact H|].
  exfalso.
  pose proof (asin_bound x) as [Hlo _]. pose proof PI_RGT_0 as Hpi.
  assert (Hs : sin (asin x) < 0) by (apply sin_lt_0_var; lra).
  rewrite sin_asin in Hs by lra. lra.
Qed.

(** The distance is an angle between 0 and PI, for all real arguments
    (latitudes outside [[-PI/2, PI/2]] included). *)
Theorem haversine_rad_range (lon1 lat1 lon2 lat2 : R) :
  0 <= haversine_rad lon1 lat1 lon2 lat2 <= PI.
Proof.
  rewrite haversine_rad_eq.
  pose proof (haversine_arg_range lon1 lat1 lon2 lat2) as [Ha0 Ha1].
  set (a := (1 - cos (lat2 - lat1)) / 2
            + cos lat1 * cos lat2 * ((1 - cos (lon2 - lon1)) / 2)) in *.
  assert (Hs : 0 <= sqrt a <= 1).
  { split; [apply sqrt_pos|]. rewrite <- sqrt_1. apply sqrt_le_1_alt. exact Ha1. }
  pose proof (asin_nonneg (sqrt a) Hs) as H0.
  pose proof (asin_bound (sqrt a)) as [_ H1].
  lra.
Qed.

(** The distance depends on the two longitudes through their difference
    only, and it does not change when both points are mirrored at the
    equator. *)
Theorem haversine_rad_invariant (lon1 lat1 lon2 lat2 t : R) :
  haversine_rad (lon1 + t) lat1 (lon2 + t) lat2 = haversine_rad lon1 lat1 lon2 lat2 /\
  haversine_rad lon1 (- lat1) lon2 (- lat2) = haversine_rad lon1 lat1 lon2 lat2.
Proof.
  rewrite !haversine_rad_eq. split.
  - replace (lon2 + t - (lon1 + t)) with (lon2 - lon1) by ring. reflexivity.
  - replace (- lat2 - - lat1) with (- (lat2 - lat1)) by ring.
    rewrite !cos_neg. reflexivity.
Qed.

Lemma fmod_period (x m : R) : 0 < m -> fmod (x + m) m = fmod x m.
Proof.
  intros Hm. unfold fmod.
  replace ((x + m) / m) with (x / m + 1) by (field; lra).
  destruct (base_Int_part (x / m)) as [Hlo Hhi].
  rewrite <- (Int_part_spec (x / m + 1) (Int_part (x / m) + 1)).
  - rewrite plus_IZR. ring.
  - rewrite plus_IZR. lra.
Qed.

(** [solar_mu0] is a number of [[0, 1]], and a full turn of longitude does
    not change it. *)
Theorem solar_mu0_range_period (lat lon t : R) :
  0 <= solar_mu0 lat lon t <= 1 /\
  solar_mu0 lat (lon + 360) t = solar_mu0 lat lon t.
Proof.
  split.
  - unfold solar_mu0. cbv zeta. apply clip_range. lra.
  - unfold solar_mu0. cbv zeta.
    match goal with
    | |- context [fmod (lon + 360 + ?g + 540) 360] =>
        replace (lon + 360 + g + 540) with (lon + g + 540 + 360) by ring
    end.
    rewrite fmod_period by lra. reflexivity.
Qed.

End DistanceFurther.

(** ** Field interpolator *)

Lemma slices_tile {A} (n : nat) (l : list A) :
  (length l <= n * 32)%nat ->
  concat (map (fun y => firstn 32 (skipn y l)) (map (fun i => (i * 32)%nat) (seq 0 n))) = l.
Proof.
  revert l. induction n as [|n IH]; intros l Hlen.
  - destruct l; [reflexivity | cbn in Hlen; lia].
  - rewrite <- cons_seq, <- seq_shift, !map_cons, !map_map, concat_cons.
    change (skipn (0 * 32) l) with l.
    transitivity (firstn 32 l ++ skipn 32 l); [|apply firstn_skipn].
    f_equal.
    rewrite <- (IH (skipn 32 l)) at 1 by (rewrite length_skipn; lia).
    rewrite map_map. f_equal. apply map_ext. intros i.
    rewrite skipn_skipn. f_equal. f_equal. lia.
Qed.

(** The loop over [range(0, grid_h, 32)] with the slices [y:y+32] visits
    every row of the grid once, in order: the bands put end to end are the
    rows. *)
Theorem bands_tile_rows {A} (ys : list A) :
  concat (map (fun y => firstn 32 (skipn y ys)) (py_range (Z.of_nat (length ys)) 32)) = ys.
Proof.
  unfold py_range. change (Z.to_nat 32) with 32%nat.
  apply slices_tile.
  assert (H : Z.of_nat (length ys) <= (Z.of_nat (length ys) + 32 - 1) / 32 * 32).
  { pose proof (Z.mod_pos_bound (Z.of_nat (length ys) + 32 - 1) 32 ltac:(lia)).
    pose proof (Z.div_mod (Z.of_nat (length ys) + 32 - 1) 32 ltac:(lia)). lia. }
  assert (H0 : 0 <= (Z.of_nat (length ys) + 32 - 1) / 32).
  { apply Z.div_pos; lia. }
  lia.
Qed.

(** ** Bitmap persistence *)

Lemma all_fields_ok_true : all_fields_ok = true.
Proof. vm_compute. reflexivity. Qed.

Lemma In_upto (n : nat) (z : Z) : 0 <= z < Z.of_nat n -> In z (upto n).
Proof.
  intros H. unfold upto. apply in_map_iff. exists (Z.to_nat z).
  split; [lia|]. apply in_seq. lia.
Qed.

Lemma fields_ok_true (r5 g6 b5 : Z) :
  0 <= r5 < 32 -> 0 <= g6 < 64 -> 0 <= b5 < 32 -> fields_ok r5 g6 b5 = true.
Proof.
  intros Hr Hg Hb. pose proof all_fields_ok_true as H. unfold all_fields_ok in H.
  rewrite forallb_forall in H. specialize (H r5 (In_upto 32 r5 Hr)).
  rewrite forallb_forall in H. specialize (H g6 (In_upto 64 g6 Hg)).
  rewrite forallb_forall in H. exact (H b5 (In_upto 32 b5 Hb)).
Qed.

Lemma shiftr_byte (z : Z) (n : Z) :
  is_byte z -> 0 <= n <= 8 -> 0 <= Z.shiftr z n < 2 ^ (8 - n) /\
  0 <= z - Z.shiftl (Z.shiftr z n) n < 2 ^ n.
Proof.
  intros [H0 H1] Hn.
  rewrite Z.shiftl_mul_pow2, Z.shiftr_div_pow2 by lia.
  assert (Hp : 0 < 2 ^ n) by (apply Z.pow_pos_nonneg; lia).
  assert (Hs : 2 ^ (8 - n) * 2 ^ n = 256).
  { rewrite <- Z.pow_add_r by lia. replace (8 - n + n) with 8 by lia. reflexivity. }
  pose proof (Z.div_mod z (2 ^ n) ltac:(lia)) as Hdm.
  pose proof (Z.mod_pos_bound z (2 ^ n) Hp) as Hm.
  split; [split|].
  - apply Z.div_pos; lia.
  - apply Z.div_lt_upper_bound; lia.
  - lia.
Qed.

(** The 16-bit value of a pixel is below 65536 and holds the three channels
    in separate fields: reading the fields back gives the top 5, 6 and 5
    bits of red, green and blue, so that each channel is recovered up to
    the bits that were dropped (less than 8, 4 and 8). *)
Theorem rgb565_roundtrip (r g b : Z) :
  is_byte r -> is_byte g -> is_byte b ->
  let v := rgb565 r g b in
  0 <= v < 65536 /\
  Z.shiftr v 11 = Z.shiftr r 3 /\
  Z.land (Z.shiftr v 5) 63 = Z.shiftr g 2 /\
  Z.land v 31 = Z.shiftr b 3 /\
  0 <= r - Z.shiftl (Z.shiftr v 11) 3 < 8 /\
  0 <= g - Z.shiftl (Z.land (Z.shiftr v 5) 63) 2 < 4 /\
  0 <= b - Z.shiftl (Z.land v 31) 3 < 8.
Proof.
  intros Hr Hg Hb v.
  destruct (shiftr_byte r 3 Hr ltac:(lia)) as [Hr5 Hrq].
  destruct (shiftr_byte g 2 Hg ltac:(lia)) as [Hg6 Hgq].
  destruct (shiftr_byte b 3 Hb ltac:(lia)) as [Hb5 Hbq].
  pose proof (fields_ok_true (Z.shiftr r 3) (Z.shiftr g 2) (Z.shiftr b 3) Hr5 Hg6 Hb5) as H.
  unfold fields_ok in H. cbv zeta in H.
  change (pack565 (Z.shiftr r 3) (Z.shiftr g 2) (Z.shiftr b 3)) with v in H.
  rewrite !andb_true_iff in H. destruct H as ((((H0 & H1) & H2) & H3) & H4).
  apply Z.leb_le in H0. apply Z.ltb_lt in H1.
  apply Z.eqb_eq in H2. apply Z.eqb_eq in H3. apply Z.eqb_eq in H4.
  rewrite H2, H3, H4. repeat split; try lia; tauto.
Qed.

Lemma rgb565_roundtrip_witness :
  is_byte 200 /\ is_byte 100 /\ is_byte 50 /\
  Z.shiftr (rgb565 200 100 50) 11 = Z.shiftr 200 3.
Proof.
  assert (Hr : is_byte 200) by (unfold is_byte; lia).
  assert (Hg : is_byte 100) by (unfold is_byte; lia).
  assert (Hb : is_byte 50) by (unfold is_byte; lia).
  repeat (split; [assumption|]).
  exact (proj1 (proj2 (rgb565_roundtrip 200 100 50 Hr Hg Hb))).
Defined.

Lemma rgb565_range_aux (r g b : Z) :
  is_byte r -> is_byte g -> is_byte b -> 0 <= rgb565 r g b < 65536.
Proof.
  intros Hr Hg Hb.
  destruct (shiftr_byte r 3 Hr ltac:(lia)) as [Hr5 _].
  destruct (shiftr_byte g 2 Hg ltac:(lia)) as [Hg6 _].
  destruct (shiftr_byte b 3 Hb ltac:(lia)) as [Hb5 _].
  pose proof (fields_ok_true (Z.shiftr r 3) (Z.shiftr g 2) (Z.shiftr b 3) Hr5 Hg6 Hb5) as H.
  unfold fields_ok in H. cbv zeta in H.
  rewrite !andb_true_iff in H. destruct H as ((((H0 & H1) & _) & _) & _).
  apply Z.leb_le in H0. apply Z.ltb_lt in H1.
  unfold rgb565. unfold pack565 in H0, H1. lia.
Qed.

Lemma pack_H (v : Z) :
  0 <= v < 65536 -> struct_pack "<H" [IInt v] = Ok (le_bytes 2 v ++ []).
Proof.
  intros [H0 H1]. unfold struct_pack.
  change (parse_fmt None "H") with (Ok [FH]).
  cbn [rbind length Nat.eqb pack_items pack1].
  replace (0 <=? v) with true by (symmetry; apply Z.leb_le; exact H0).
  replace (v <? 2 ^ 16) with true by (symmetry; apply Z.ltb_lt; exact H1).
  reflexivity.
Qed.

Lemma land_255_byte (v : Z) : is_byte (Z.land v 255).
Proof.
  change 255 with (Z.ones 8). rewrite Z.land_ones by lia.
  unfold is_byte. apply Z.mod_pos_bound. lia.
Qed.

Lemma pixel_ok (img : image) (y x : nat) :
  well_formed img ->
  Z.of_nat y < img_h img -> Z.of_nat x < img_w img ->
  exists bs, pixel (img_rgb img) (img_w img) y x = Ok bs /\
             length bs = 2%nat /\ Forall is_byte bs.
Proof.
  intros (Hw & Hh & Hlen & Hbytes) Hy Hx. unfold pixel. cbv zeta.
  set (i := Z.to_nat ((Z.of_nat y * img_w img + Z.of_nat x) * 3)).
  assert (Hi : (i + 3 <= length (img_rgb img))%nat).
  { subst i. nia. }
  pose proof (length_skipn i (img_rgb img)) as Hs.
  pose proof (Forall_drop is_byte i (img_rgb img) Hbytes) as Hf.
  destruct (skipn i (img_rgb img)) as [|r [|g [|b rest]]]; cbn in Hs; try lia.
  cbn [firstn].
  inversion Hf as [|? ? Hr Hf1]; subst. inversion Hf1 as [|? ? Hg Hf2]; subst.
  inversion Hf2 as [|? ? Hb _]; subst.
  rewrite pack_H by (apply (rgb565_range_aux r g b); assumption).
  eexists. split; [reflexivity|]. split; [reflexivity|].
  cbn [le_bytes app]. repeat constructor; apply land_255_byte.
Qed.

Lemma concat_const_length {A} (c : nat) (ls : list (list A)) :
  Forall (fun l => length l = c) ls -> length (concat ls) = (c * length ls)%nat.
Proof.
  induction 1 as [|l ls Hl _ IH]; [cbn; lia|].
  rewrite concat_cons, length_app, IH, Hl. cbn [length]. lia.
Qed.

Lemma Forall_concat_bytes (ls : list (list Z)) :
  Forall (Forall is_byte) ls -> Forall is_byte (concat ls).
Proof.
  induction 1 as [|l ls Hl _ IH]; [constructor|].
  rewrite concat_cons. apply Forall_app. split; assumption.
Qed.

Lemma Forall2_right {A B} (P : B -> Prop) (l : list A) (bs : list B) :
  Forall2 (fun _ b => P b) l bs -> Forall P bs.
Proof.
  induction 1; constructor; assumption.
Qed.

(** On an image of [w * h] pixels of three bytes the pixel loop of
    [write_bmp] raises nothing and gives [2 * w * h] bytes, two per pixel
    and no padding. *)
Theorem encode_rows_length (img : image) :
  well_formed img ->
  exists rows,
    encode_rows img = Ok rows /\
    Z.of_nat (length rows) = 2 * img_w img * img_h img /\
    Forall is_byte rows.
Proof.
  intros Hwf. pose proof Hwf as (Hw & Hh & _ & _). unfold encode_rows.
  destruct (rmapM_Forall2
              (fun y =>
                 let* row := rmapM (pixel (img_rgb img) (img_w img) y)
                                   (seq 0 (Z.to_nat (img_w img))) in
                 Ok (concat row))
              (fun _ bs => length bs = (2 * Z.to_nat (img_w img))%nat /\ Forall is_byte bs)
              (seq 0 (Z.to_nat (img_h img)))) as (rows & Hrows & HF).
  - intros y Hy. apply in_seq in Hy.
    destruct (rmapM_Forall2 (pixel (img_rgb img) (img_w img) y)
                (fun _ bs => length bs = 2%nat /\ Forall is_byte bs)
                (seq 0 (Z.to_nat (img_w img)))) as (row & Hrow & HFrow).
    + intros x Hx. apply in_seq in Hx. apply pixel_ok; [exact Hwf | lia | lia].
    + rewrite Hrow. cbn [rbind]. eexists. split; [reflexivity|].
      pose proof (Forall2_length _ _ _ HFrow) as Hlen. rewrite length_seq in Hlen.
      apply Forall2_right in HFrow. split.
      * rewrite (concat_const_length 2); [lia|].
        eapply Forall_impl; [exact HFrow|]. intros bs [H _]. exact H.
      * apply Forall_concat_bytes.
        eapply Forall_impl; [exact HFrow|]. intros bs [_ H]. exact H.
  - rewrite Hrows. cbn [rbind]. eexists. split; [reflexivity|].
    pose proof (Forall2_length _ _ _ HF) as Hlen. rewrite length_seq in Hlen.
    apply Forall2_right in HF. split.
    + rewrite (concat_const_length (2 * Z.to_nat (img_w img))).
      * nia.
      * eapply Forall_impl; [exact HF|]. intros bs [H _]. exact H.
    + apply Forall_concat_bytes.
      eapply Forall_impl; [exact HF|]. intros bs [_ H]. exact H.
Qed.

Lemma encode_rows_length_witness :
  well_formed (mk_image 2 1 [255; 255; 255; 8; 4; 8]) /\
  exists rows, encode_rows (mk_image 2 1 [255; 255; 255; 8; 4; 8]) = Ok rows /\
               Z.of_nat (length rows) = 2 * 2 * 1 /\ Forall is_byte rows.
Proof.
  assert (H : well_formed (mk_image 2 1 [255; 255; 255; 8; 4; 8])).
  { unfold well_formed. cbn. repeat split; try lia.
    repeat constructor; unfold is_byte; lia. }
  split; [exact H|].
  exact (encode_rows_length (mk_image 2 1 [255; 255; 255; 8; 4; 8]) H).
Defined.

(** The pixel loop stops with ValueError at the first pixel whose three
    bytes are not all there: a byte string shorter than the size announces
    is not padded. *)
Theorem pixel_short_buffer (rgb : list Z) (w : Z) (y x : nat) :
  (length rgb < Z.to_nat ((Z.of_nat y * w + Z.of_nat x) * 3) + 3)%nat ->
  pixel rgb w y x = Raise ValueError.
Proof.
  intros H. unfold pixel. cbv zeta.
  set (i := Z.to_nat ((Z.of_nat y * w + Z.of_nat x) * 3)) in *.
  pose proof (length_skipn i rgb) as Hs.
  destruct (skipn i rgb) as [|r [|g [|b rest]]]; cbn in Hs; try reflexivity.
  lia.
Qed.

Lemma pixel_short_buffer_witness :
  (length [1; 2; 3; 4; 5] < Z.to_nat ((Z.of_nat 0 * 2 + Z.of_nat 1) * 3) + 3)%nat /\
  pixel [1; 2; 3; 4; 5] 2 0 1 = Raise ValueError.
Proof.
  assert (H : (length [1; 2; 3; 4; 5]
               < Z.to_nat ((Z.of_nat 0 * 2 + Z.of_nat 1) * 3) + 3)%nat) by (cbn; lia).
  split; [exact H|]. exact (pixel_short_buffer [1; 2; 3; 4; 5] 2 0 1 H).
Defined.

Lemma le_bytes_2 (v : Z) :
  0 <= v < 65536 ->
  exists lo hi, le_bytes 2 v = [lo; hi] /\ is_byte lo /\ is_byte hi /\ lo + 256 * hi = v.
Proof.
  intros Hv. exists (Z.land v 255), (Z.land (Z.shiftr v 8) 255).
  split; [reflexivity|]. split; [apply land_255_byte|]. split; [apply land_255_byte|].
  change 255 with (Z.ones 8). rewrite !Z.land_ones by lia.
  rewrite Z.shiftr_div_pow2 by lia. change (2 ^ 8) with 256.
  rewrite (Z.mod_small (v / 256) 256).
  - pose proof (Z.div_mod v 256 ltac:(lia)). lia.
  - split; [apply Z.div_pos; lia | apply Z.div_lt_upper_bound; lia].
Qed.

(** A pixel whose three bytes are there goes out as two bytes, low byte
    first, that read back as a 16-bit number give the packed value of the
    pixel. *)
Theorem pixel_little_endian (rgb : list Z) (w : Z) (y x : nat) (r g b : Z) :
  firstn 3 (skipn (Z.to_nat ((Z.of_nat y * w + Z.of_nat x) * 3)) rgb) = [r; g; b] ->
  is_byte r -> is_byte g -> is_byte b ->
  exists lo hi,
    pixel rgb w y x = Ok [lo; hi] /\
    is_byte lo /\ is_byte hi /\ lo + 256 * hi = rgb565 r g b.
Proof.
  intros Hpix Hr Hg Hb. unfold pixel. cbv zeta. rewrite Hpix.
  pose proof (rgb565_range_aux r g b Hr Hg Hb) as Hv.
  rewrite pack_H by exact Hv.
  destruct (le_bytes_2 (rgb565 r g b) Hv) as (lo & hi & Hle & Hlo & Hhi & Hsum).
  exists lo, hi. rewrite Hle. repeat split; try assumption; apply Hlo || apply Hhi.
Qed.

Lemma pixel_little_endian_witness :
  firstn 3 (skipn (Z.to_nat ((Z.of_nat 0 * 2 + Z.of_nat 1) * 3)) [255; 255; 255; 8; 4; 8])
  = [8; 4; 8] /\
  is_byte 8 /\ is_byte 4 /\
  exists lo hi, pixel [255; 255; 255; 8; 4; 8] 2 0 1 = Ok [lo; hi] /\
                is_byte lo /\ is_byte hi /\ lo + 256 * hi = rgb565 8 4 8.
Proof.
  assert (H8 : is_byte 8) by (unfold is_byte; lia).
  assert (H4 : is_byte 4) by (unfold is_byte; lia).
  split; [reflexivity|]. split; [exact H8|]. split; [exact H4|].
  exact (pixel_little_endian [255; 255; 255; 8; 4; 8] 2 0 1 8 4 8 eq_refl H8 H4 H8).
Defined.

Lemma unparseable_time_rejected_witness :
  unparseable iso_basic (dict_get (report [] []) "time" PNone) /\
  (3600 < 4000)%Q /\
  ingest_record no_float iso_basic (utc_plus 0) 4000 (report [] []) = Ok None.
Proof.
  assert (H1 : unparseable iso_basic (dict_get (report [] []) "time" PNone))
    by exact I.
  assert (H2 : (3600 < 4000)%Q) by reflexivity.
  repeat (split; [assumption|]).
  exact (unparseable_time_rejected no_float iso_basic (utc_plus 0) 4000 (report [] []) H1 H2).
Defined.

Lemma colormap1_saturates_witness :
  (3 <= 5)%Q /\ colormap1 3 = Ok (0, 0, 180).
Proof.
  assert (H : (3 <= 5)%Q) by discriminate.
  split; [exact H|]. exact (proj1 (colormap1_saturates 3) H).
Defined.
